(** * clvm: the S-expression value model and its binary serialization

    A shallow embedding of [clvm/subclass_sexp.py] (the atom/pair value
    class), followed by a model of the serialization layer
    ([clvm/serialize.py]), and the properties of both. *)

From Stdlib Require Import ZArith List Lia.
From Stdlib.Strings Require Import Byte.
From stdpp Require Import base option list gmap strings.

Local Open Scope Z_scope.
Set Warnings "-register-all".

(** ** Results of fallible code *)

Inductive result (E A : Type) : Type :=
| Ok (a : A)
| Err (e : E).
Arguments Ok {E A} a.
Arguments Err {E A} e.

#[global] Instance result_ret {E} : MRet (result E) := fun _ a => Ok a.
#[global] Instance result_bind {E} : MBind (result E) :=
  fun _ _ f m => match m with Ok a => f a | Err e => Err e end.

Abbreviation bytes := (list byte).

#[global] Instance byte_eq_decision : EqDecision byte := Byte.byte_eq_dec.

(** ** clvm/subclass_sexp.py *)

Module BaseSExp.

(** An instance of the class holds one field [v], and [__init__] asserts that
    [v] is [None], a 2-tuple, or an instance of [ATOM_TYPES] (bytes). The
    tuples built by [to] and [cons] hold instances of the class, so an
    instance is a tree; the constructor records the class of [v]. *)
Inductive SExp : Type :=
| SExp_None
| SExp_atom (v : bytes)
| SExp_tuple (v0 v1 : SExp).

(** The exceptions the module raises: [EvalError(msg, sexp)], a failed
    [assert], and [ValueError]. *)
Inductive exn : Type :=
| EvalError (msg : string) (sexp : SExp)
| AssertionError
| ValueError (msg : string).

(** The native values handed to [to]. *)
Inductive pyobj : Type :=
| PyNone
| PyBytes (b : bytes)
| PyInt (n : Z)
| PyTuple (items : list pyobj)
| PyList (items : list pyobj)
| PySExp (s : SExp).

(** What [subclass_sexp] stores on the class it creates. *)
Record sexp_class : Type := {
  __null__ : SExp;
  false_ : SExp;
  true_ : SExp
}.

(** [subclass_sexp(mixin_class, atom_types, true, false)]:
    [SExp.__null__ = SExp(false)], [SExp.false = SExp.__null__],
    [SExp.true = SExp(true)]. *)
Definition subclass_sexp (true_v false_v : SExp) : sexp_class :=
  {| __null__ := false_v; false_ := false_v; true_ := true_v |}.

(** The defaults of the keyword arguments: [true=b'\1'], [false=None]. *)
Definition default_class : sexp_class :=
  subclass_sexp (SExp_atom [x01%byte]) SExp_None.

(** The same class created with [false=b''], as the spec's value model
    describes it. *)
Definition empty_atom_class : sexp_class :=
  subclass_sexp (SExp_atom [x01%byte]) (SExp_atom []).

(** [other.v == self.v]: Python's [==] on [None], bytes and tuples; a tuple
    compares its items with [==], which is [__eq__] again. *)
Fixpoint v_eq (a b : SExp) : bool :=
  match a, b with
  | SExp_None, SExp_None => true
  | SExp_atom x, SExp_atom y => bool_decide (x = y)
  | SExp_tuple a0 a1, SExp_tuple b0 b1 => v_eq a0 b0 && v_eq a1 b1
  | _, _ => false
  end.

Section Class.
Variable class_ : sexp_class.

Definition null : SExp := __null__ class_.

Definition cons (self right : SExp) : SExp := SExp_tuple self right.

(** [to], with [to_castable] and [to_atom] the identities of the base
    class. A list is folded from its last item, as [reversed(v)] does. *)
Fixpoint to (v : pyobj) : result exn SExp :=
  match v with
  | PySExp s => Ok s
  | PyNone => Ok null
  | PyTuple items =>
      match items with
      | [v0; v1] => a ← to v0; b ← to v1; Ok (SExp_tuple a b)
      | _ => Err AssertionError
      end
  | PyBytes b => Ok (SExp_atom b)
  | PyList items =>
      fold_right (fun x acc => r ← acc; s ← to x; Ok (cons s r)) (Ok null) items
  | PyInt _ => Err (ValueError "can't cast")
  end.

Definition listp (self : SExp) : bool :=
  match self with
  | SExp_None | SExp_tuple _ _ => true
  | SExp_atom _ => false
  end.

Definition __eq__ (self : SExp) (other : pyobj) : result exn bool :=
  match to other with
  | Ok o => Ok (v_eq o self)
  | Err (ValueError _) => Ok false
  | Err e => Err e
  end.

Definition nullp (self : SExp) : result exn bool :=
  __eq__ self (PySExp (__null__ class_)).

Definition first (self : SExp) : result exn SExp :=
  match self with
  | SExp_tuple v0 _ => Ok v0
  | _ => Err (EvalError "first of non-cons" self)
  end.

Definition rest (self : SExp) : result exn SExp :=
  match self with
  | SExp_tuple _ v1 => Ok v1
  | _ => Err (EvalError "rest of non-cons" self)
  end.

Definition as_atom (self : SExp) : result exn bytes :=
  if negb (listp self) then
    match self with
    | SExp_atom v => Ok v
    | _ => Err AssertionError
    end
  else Err AssertionError.
End Class.

End BaseSExp.

(** ** clvm/serialize.py

    [tests/serialize_test.py] imports the serializer
    ([atom_to_byte_iterator], [_atom_from_stream], [sexp_from_stream],
    [sexp_buffer_from_stream], and [as_bin] of a value). Its definitions
    below follow the description of the format; where the description leaves
    a choice, the tests decide. *)

Module Serialize.

(** Modelled from the spec: the error kinds of the codec, which
    [clvm/serialize.py] raises. *)
Inductive error : Type :=
| MalformedInput
| UnexpectedEndOfInput
| SizeLimitExceeded
| InvalidBackReference
| TypeMismatch.

(** Modelled from the spec: the Value the codec of [clvm/serialize.py]
    encodes, an Atom (a byte string) or a Pair. *)
Inductive Value : Type :=
| Atom (a : bytes)
| Pair (first rest : Value).

(** Modelled from the spec: the in-memory objects [clvm/serialize.py] walks
    when it encodes with back-references. An object carries its identity
    (Python's [id]); two occurrences of one object in a tree carry the same
    identity. *)
Inductive Obj : Type :=
| OAtom (id : nat) (a : bytes)
| OPair (id : nat) (first rest : Obj).

(** The identity of an object. *)
Definition oid (o : Obj) : nat :=
  match o with OAtom i _ | OPair i _ _ => i end.

(** The Value an object stands for. *)
Fixpoint value_of (o : Obj) : Value :=
  match o with
  | OAtom _ a => Atom a
  | OPair _ f r => Pair (value_of f) (value_of r)
  end.

(** The objects reachable from [o], itself included. *)
Fixpoint subobjects (o : Obj) : list Obj :=
  o :: match o with
       | OAtom _ _ => []
       | OPair _ f r => subobjects f ++ subobjects r
       end.

(** One identity names one object, as in memory. *)
Definition consistent_ids (o : Obj) : Prop :=
  ∀ o1 o2, In o1 (subobjects o) → In o2 (subobjects o) → oid o1 = oid o2 → o1 = o2.

(** Equality of objects, and the check of [consistent_ids], as functions. *)
Fixpoint Obj_eqb (x y : Obj) : bool :=
  match x, y with
  | OAtom i a, OAtom j b => bool_decide (i = j) && bool_decide (a = b)
  | OPair i f r, OPair j g t => bool_decide (i = j) && Obj_eqb f g && Obj_eqb r t
  | _, _ => false
  end.

Definition consistent_idsb (o : Obj) : bool :=
  forallb (fun o1 => forallb (fun o2 =>
    implb (bool_decide (oid o1 = oid o2)) (Obj_eqb o1 o2)) (subobjects o)) (subobjects o).

(** A byte as a number below 256, and back. *)
Definition byte_to_Z (b : byte) : Z := Z.of_N (Byte.to_N b).

Definition byte_of_Z (z : Z) : byte :=
  match Byte.of_N (Z.to_N (z mod 256)) with
  | Some b => b
  | None => x00%byte
  end.

(** Modelled from the spec: the length bytes of a prefix, which
    [clvm/serialize.py] writes big-endian. The [k] low bytes of [n], most
    significant first. *)
Fixpoint be_bytes (k : nat) (n : Z) : bytes :=
  match k with
  | O => []
  | S k' => byte_of_Z (Z.land (Z.shiftr n (8 * Z.of_nat k')) 0xFF) :: be_bytes k' n
  end.

(** Modelled from the spec: the big-endian length field as
    [clvm/serialize.py] reads it, a byte string as an integer. *)
Definition from_be (bs : bytes) : Z :=
  fold_left (fun acc b => acc * 256 + byte_to_Z b) bs 0.

(** Modelled from the spec: the distance of a back-reference of
    [clvm/serialize.py] as bytes, the shortest big-endian form of [n];
    [byte_length] is the number of its bytes. *)
Definition byte_length (n : Z) : nat :=
  if n <=? 0 then O else Z.to_nat (Z.log2 n / 8 + 1).

Definition int_to_bytes (n : Z) : bytes := be_bytes (byte_length n) n.

(** Modelled from the spec: the reads of [clvm/serialize.py] from its
    stream. [f.read(n)] gives the next [n] bytes and the stream after them; a
    short read is the premature end of the stream. *)
Definition read (n : Z) (f : bytes) : result error (bytes * bytes) :=
  if Z.of_nat (length f) <? n then Err UnexpectedEndOfInput
  else Ok (take (Z.to_nat n) f, drop (Z.to_nat n) f).

Section Codec.
(** The largest supported atom length, a constant of the format. The
    tests bound it: an atom of [0x400000001] bytes is rejected
    ([test_blob_limit]), one of [0x8000000] bytes and more is accepted
    ([test_very_long_blobs]). *)
Variable max_atom_size : Z.

(** *** Atom codec, encoding *)

(** Modelled from the spec: the prefix markers [clvm/serialize.py] emits;
    [marker k] opens a prefix with [k] further length bytes. *)
Definition marker (k : nat) : Z :=
  match k with
  | 0%nat => 0x80 | 1%nat => 0xC0 | 2%nat => 0xE0 | 3%nat => 0xF0
  | 4%nat => 0xF8 | 5%nat => 0xFC | _ => 0xFE
  end.

(** Modelled from the spec: the tiers of the length prefix of
    [clvm/serialize.py], as the number of length bytes that follow the first
    prefix byte; each tier holds seven more bits of length. *)
Definition size_tier (len : Z) : nat :=
  if len <? 0x40 then 0
  else if len <? 0x2000 then 1
  else if len <? 0x100000 then 2
  else if len <? 0x8000000 then 3
  else if len <? 0x400000000 then 4
  else if len <? 0x20000000000 then 5
  else 6.

(** Modelled from the spec: the length prefix [clvm/serialize.py] emits,
    rules 3 to 5 of the atom codec: [0x80 | len]; [0xC0 | (len >> 8)] and the
    low byte of [len]; and so on with one more length byte per tier, up to
    [0xFE] and six length bytes. *)
Definition size_prefix (len : Z) : bytes :=
  let k := size_tier len in
  byte_of_Z (Z.lor (marker k) (Z.shiftr len (8 * Z.of_nat k))) :: be_bytes k len.

(** Modelled from the spec: [atom_to_byte_iterator] of [clvm/serialize.py],
    by the rules of the atom codec in their order of priority; a length
    above the supported maximum, or one that six length bytes cannot hold,
    is rejected before any byte of the prefix or payload is emitted. *)
Definition atom_to_byte_iterator (a : bytes) : result error bytes :=
  let len := Z.of_nat (length a) in
  match a with
  | [] => Ok [x80%byte]
  | b0 :: tl =>
      if bool_decide (tl = []) && (byte_to_Z b0 <? 0x80) then Ok [b0]
      else if (max_atom_size <? len) || (2 ^ 48 <=? len) then Err SizeLimitExceeded
      else Ok (size_prefix len ++ a)
  end.

(** *** Atom codec, decoding *)

(** Modelled from the spec: the wider prefixes as [clvm/serialize.py]
    reads them. For a first byte from [0xC0] to [0xFE]: the length bits it
    holds and the number of length bytes that follow it; [0xFF] opens no
    atom. *)
Definition length_field (b : Z) : option (Z * Z) :=
  if b <? 0xE0 then Some (Z.land b 0x1F, 1)
  else if b <? 0xF0 then Some (Z.land b 0x0F, 2)
  else if b <? 0xF8 then Some (Z.land b 0x07, 3)
  else if b <? 0xFC then Some (Z.land b 0x03, 4)
  else if b <? 0xFE then Some (Z.land b 0x01, 5)
  else if b <? 0xFF then Some (0, 6)
  else None.

(** Modelled from the spec: [_atom_from_stream] of [clvm/serialize.py],
    given the stream and the first byte [b0], already read. It returns the
    atom and the rest of the stream. The length a wider prefix declares is
    checked against the maximum before the payload is read. *)
Definition _atom_from_stream (f : bytes) (b0 : byte) : result error (bytes * bytes) :=
  let b := byte_to_Z b0 in
  if b =? 0x80 then Ok ([], f)
  else if b <? 0x80 then Ok ([b0], f)
  else if b <? 0xC0 then read (Z.land b 0x3F) f
  else
    match length_field b with
    | None => Err MalformedInput
    | Some (hi, k) =>
        '(field, f1) ← read k f;
        let size := hi * 256 ^ k + from_be field in
        if max_atom_size <? size then Err SizeLimitExceeded
        else read size f1
    end.

(** *** Tree encoder *)

(** Modelled from the spec: the uncompressed encoding ([as_bin()], over
    [sexp_to_stream] of [clvm/serialize.py]): [0xFF], the first, the rest
    for a Pair; the atom codec for an Atom. *)
Fixpoint sexp_to_bytes (v : Value) : result error bytes :=
  match v with
  | Atom a => atom_to_byte_iterator a
  | Pair f r =>
      bf ← sexp_to_bytes f;
      br ← sexp_to_bytes r;
      Ok (xff%byte :: bf ++ br)
  end.

(** Modelled from the spec: the payload of a back-reference of
    [clvm/serialize.py]: the distance from the current position back to the
    offset referred to, as a length-prefixed big-endian integer, the length
    prefix being that of the atom codec. *)
Definition backref_payload (distance : Z) : result error bytes :=
  atom_to_byte_iterator (int_to_bytes distance).

(** Modelled from the spec: the compressed encoding of
    [clvm/serialize.py]. [seen] is the identity-keyed table from objects to
    the offset at which their encoding began, [pos] the current offset. An
    object found in the table is emitted as [0xFE] and a back-reference
    payload; any other is recorded at the current offset and then emitted
    as in the uncompressed encoding. *)
Fixpoint sexp_to_bytes_backrefs (o : Obj) (seen : gmap nat Z) (pos : Z)
  : result error (bytes * gmap nat Z) :=
  match seen !! oid o with
  | Some off =>
      p ← backref_payload (pos - off);
      Ok (xfe%byte :: p, seen)
  | None =>
      let seen1 := <[oid o := pos]> seen in
      match o with
      | OAtom _ a =>
          b ← atom_to_byte_iterator a;
          Ok (b, seen1)
      | OPair _ f r =>
          '(bf, seen2) ← sexp_to_bytes_backrefs f seen1 (pos + 1);
          '(br, seen3) ← sexp_to_bytes_backrefs r seen2 (pos + 1 + Z.of_nat (length bf));
          Ok (xff%byte :: bf ++ br, seen3)
      end
  end.

(** Modelled from the spec: [v.as_bin(allow_backrefs=...)], which the
    tests call on a value; it is defined with [clvm/serialize.py]. *)
Definition as_bin (allow_backrefs : bool) (o : Obj) : result error bytes :=
  if allow_backrefs then
    '(b, _) ← sexp_to_bytes_backrefs o ∅ 0;
    Ok b
  else sexp_to_bytes (value_of o).

(** *** Tree decoder and buffer scanner *)

(** Modelled from the spec: a frame of the decoder's stack in
    [clvm/serialize.py], a pending pair: it awaits its first child, or holds
    it and awaits its rest. [start] is the offset of its [0xFF] marker. *)
Inductive frame : Type :=
| AwaitFirst (start : Z)
| AwaitRest (start : Z) (first : Value).

Section Decoder.
Variable allow_backrefs : bool.

(** Modelled from the spec: the decoder's table of [clvm/serialize.py]
    from offsets to decoded values, kept when back-references are
    enabled. *)
Definition record (start : Z) (v : Value) (offsets : gmap Z Value) : gmap Z Value :=
  if allow_backrefs then <[start := v]> offsets else offsets.

(** Modelled from the spec: how the decoder of [clvm/serialize.py]
    resolves a decoded value. It becomes a child of the innermost pending
    pair; a pair that receives its rest is complete, is recorded at its
    start offset, and is resolved in turn. With no pair pending the value is
    the result. *)
Fixpoint resolve (v : Value) (stack : list frame) (offsets : gmap Z Value)
  : (Value + list frame) * gmap Z Value :=
  match stack with
  | [] => (inl v, offsets)
  | AwaitFirst start :: stack' => (inr (AwaitRest start v :: stack'), offsets)
  | AwaitRest start f :: stack' =>
      resolve (Pair f v) stack' (record start (Pair f v) offsets)
  end.

(** Modelled from the spec: the offsets of the decoder of
    [clvm/serialize.py]. The offset reached once the stream [f], read at
    [pos], has been consumed down to [f']. *)
Definition advance (pos : Z) (f f' : bytes) : Z :=
  pos + Z.of_nat (length f) - Z.of_nat (length f').

(** Modelled from the spec: what one turn of the decoder of
    [clvm/serialize.py] reads: a pair marker, or a value with the table
    after it; [f'] is the stream after it. *)
Inductive token : Type :=
| PairMarker (f' : bytes)
| Object (v : Value) (offsets : gmap Z Value) (f' : bytes).

(** Modelled from the spec: one turn of the decoder of
    [clvm/serialize.py] at offset [pos]. [0xFF] is a pair marker. With
    back-references enabled, [0xFE] and a payload stand for the value
    recorded at the offset the payload gives, and a payload that gives no
    recorded offset is an invalid back-reference. Any other first byte opens
    an atom, which is recorded at [pos]. Without back-reference support
    [0xFE] opens an atom too, as the first byte of the widest length prefix:
    [test_deserialize_truncated_size] and [test_deserialize_large_blob]
    decode it so ("the length-prefix is 7 bytes"). *)
Definition read_token (offsets : gmap Z Value) (pos : Z) (f : bytes)
  : result error token :=
  match f with
  | [] => Err UnexpectedEndOfInput
  | b :: f1 =>
      if byte_to_Z b =? 0xFF then Ok (PairMarker f1)
      else if allow_backrefs && (byte_to_Z b =? 0xFE) then
        match f1 with
        | [] => Err UnexpectedEndOfInput
        | b1 :: f2 =>
            '(payload, f3) ← _atom_from_stream f2 b1;
            match offsets !! (pos - from_be payload) with
            | None => Err InvalidBackReference
            | Some v => Ok (Object v offsets f3)
            end
        end
      else
        '(a, f2) ← _atom_from_stream f1 b;
        Ok (Object (Atom a) (record pos (Atom a) offsets) f2)
  end.

(** Modelled from the spec: the loop of the decoder of
    [clvm/serialize.py] over its explicit stack of pending pairs. Each turn
    consumes at least one byte; [fuel] bounds the number of turns, and
    [None] is a loop cut short by it. *)
Fixpoint decode_loop (fuel : nat) (stack : list frame) (offsets : gmap Z Value)
  (pos : Z) (f : bytes) : option (result error (Value * bytes)) :=
  match fuel with
  | O => None
  | S fuel' =>
      match read_token offsets pos f with
      | Err e => Some (Err e)
      | Ok (PairMarker f') =>
          decode_loop fuel' (AwaitFirst pos :: stack) offsets (advance pos f f') f'
      | Ok (Object v offsets' f') =>
          match resolve v stack offsets' with
          | (inl r, _) => Some (Ok (r, f'))
          | (inr stack', offsets'') =>
              decode_loop fuel' stack' offsets'' (advance pos f f') f'
          end
      end
  end.

(** Modelled from the spec: [sexp_from_stream] of [clvm/serialize.py]; it
    returns the value and the rest of the stream. *)
Definition sexp_from_stream (f : bytes) : option (result error (Value * bytes)) :=
  decode_loop (S (length f)) [] ∅ 0 f.

(** Modelled from the spec: the loop of the scanner of
    [clvm/serialize.py], with its counter of the values still to be skipped:
    one more after [0xFF], one less after an atom or, with back-references
    enabled, after [0xFE] and its payload. [has_backrefs] of the tests walks
    a blob in the same way. *)
Fixpoint scan_loop (fuel : nat) (count : nat) (f : bytes) : option (result error bytes) :=
  match fuel with
  | O => None
  | S fuel' =>
      match count with
      | O => Some (Ok f)
      | S count' =>
          match f with
          | [] => Some (Err UnexpectedEndOfInput)
          | b :: f1 =>
              if byte_to_Z b =? 0xFF then scan_loop fuel' (S (S count')) f1
              else if allow_backrefs && (byte_to_Z b =? 0xFE) then
                match f1 with
                | [] => Some (Err UnexpectedEndOfInput)
                | b1 :: f2 =>
                    match _atom_from_stream f2 b1 with
                    | Err e => Some (Err e)
                    | Ok (_, f3) => scan_loop fuel' count' f3
                    end
                end
              else
                match _atom_from_stream f1 b with
                | Err e => Some (Err e)
                | Ok (_, f2) => scan_loop fuel' count' f2
                end
          end
      end
  end.

(** Modelled from the spec: [sexp_buffer_from_stream] of
    [clvm/serialize.py]; it returns the bytes that span one encoded value
    and builds no value. *)
Definition sexp_buffer_from_stream (f : bytes) : option (result error bytes) :=
  match scan_loop (S (S (length f))) 1 f with
  | None => None
  | Some (Err e) => Some (Err e)
  | Some (Ok f') => Some (Ok (take (length f - length f') f))
  end.
End Decoder.
End Codec.

(** *** The values of the tests *)

(** [TEXT] of [tests/serialize_test.py]. *)
Definition TEXT : bytes :=
  String.list_byte_of_string "the quick brown fox jumps over the lazy dogs".

(** The length limit of the reference format: the lengths its five-byte
    prefix holds. *)
Definition reference_max_atom_size : Z := 0x3FFFFFFFF.

(** What the decoder must find in the first byte of a prefix with [k]
    length bytes whose leading length bits are [hi]. *)
Definition first_byte_check (k : nat) (hi : Z) : bool :=
  let b := byte_to_Z (byte_of_Z (Z.lor (marker k) hi)) in
  match k with
  | O => (0x80 <=? b) && (b <? 0xC0) && (Z.land b 0x3F =? hi) && (b =? 0x80 + hi)
  | _ => (0xC0 <=? b) && (b <? 0xFF)
         && bool_decide (length_field b = Some (hi, Z.of_nat k))
         && implb (b =? 0xFE) (bool_decide (k = 6%nat))
  end.

(** The decoder's loop after one value has been read and resolved: the
    result, or the loop again on the new stack. *)
Definition continue_with (max_atom_size : Z) (allow_backrefs : bool) (fuel : nat)
  (r : (Value + list frame) * gmap Z Value) (pos : Z) (f : bytes)
  : option (result error (Value * bytes)) :=
  match r with
  | (inl v, _) => Some (Ok (v, f))
  | (inr stack, offsets) => decode_loop max_atom_size allow_backrefs fuel stack offsets pos f
  end.

(** The number of nodes of an object. *)
Fixpoint obj_size (o : Obj) : nat :=
  match o with
  | OAtom _ _ => 1
  | OPair _ f r => S (obj_size f + obj_size r)
  end.

(** How the decoder with back-references reads the compressed encoding [b]
    of [o], emitted at offset [pos] with the table [seen] and leaving the
    table [seen']: from the table [offsets] it reaches some table
    [offsets'] that keeps the entries below [pos], holds the value of every
    object that entered [seen'], and with which [o] is resolved. *)
Definition read_back (max_atom_size : Z) (o : Obj) (seen seen' : gmap nat Z)
  (pos : Z) (b : bytes) (offsets : gmap Z Value) : Prop :=
  ∃ offsets',
    (0 < length b)%nat
    ∧ (∀ k, k < pos → offsets' !! k = offsets !! k)
    ∧ (∀ i off, seen' !! i = Some off →
         seen !! i = Some off
         ∨ ∃ x, In x (subobjects o) ∧ oid x = i
                ∧ pos ≤ off < pos + Z.of_nat (length b)
                ∧ offsets' !! off = Some (value_of x))
    ∧ ∀ fuel stack rest, (length (b ++ rest) < fuel)%nat →
        ∃ fuel', (length rest < fuel')%nat
          ∧ decode_loop max_atom_size true fuel stack offsets pos (b ++ rest)
            = continue_with max_atom_size true fuel'
                (resolve true (value_of o) stack offsets')
                (pos + Z.of_nat (length b)) rest.

(** The number of values the decoder has still to read with the pending
    pairs of [stack]: the one it is reading, and the rest of every pair
    that awaits its first child. It is the scanner's counter. *)
Fixpoint values_to_read (stack : list frame) : nat :=
  match stack with
  | [] => 1
  | AwaitFirst _ :: stack' => S (values_to_read stack')
  | AwaitRest _ _ :: stack' => values_to_read stack'
  end.

(** Every atom of the value is within the size limit. *)
Fixpoint atoms_within (max_atom_size : Z) (v : Value) : Prop :=
  match v with
  | Atom a => Z.of_nat (length a) ≤ max_atom_size
  | Pair f r => atoms_within max_atom_size f ∧ atoms_within max_atom_size r
  end.

End Serialize.


(** ** clvm/subclass_sexp.py, the remaining methods *)

Module SExpMethods.
Import BaseSExp.

(** The native values [to] accepts: no integer, and tuples of two items
    only. *)
Fixpoint castable (v : pyobj) : bool :=
  match v with
  | PyNone | PyBytes _ | PySExp _ => true
  | PyInt _ => false
  | PyTuple items =>
      match items with
      | [v0; v1] => castable v0 && castable v1
      | _ => false
      end
  | PyList items => forallb castable items
  end.

(** The number of nodes of a value. *)
Fixpoint SExp_size (s : SExp) : nat :=
  match s with
  | SExp_None | SExp_atom _ => 1
  | SExp_tuple v0 v1 => S (SExp_size v0 + SExp_size v1)
  end.

Section Class.
Variable class_ : sexp_class.

(** [as_iter]: the items the generator yields, and the exception that ends
    it, if one does. The generator returns on a null value, fails its
    assertion on another atom, raises [EvalError] from [first] on a value
    that holds [None] and is not null, and on a pair yields its first and
    goes on with its rest. *)
Fixpoint as_iter (self : SExp) : list SExp * option exn :=
  match nullp class_ self with
  | Err e => ([], Some e)
  | Ok true => ([], None)
  | Ok false =>
      match self with
      | SExp_tuple v0 v1 =>
          let '(items, raised) := as_iter v1 in (v0 :: items, raised)
      | SExp_None => ([], Some (EvalError "first of non-cons" self))
      | SExp_atom _ => ([], Some AssertionError)
      end
  end.

(** [to(v)] for [v] an instance of another subclass of [BaseSExp], whose
    tuples hold instances of that subclass and whose atoms are bytes: the
    branch [class_.to(v.v)]. [None] becomes the null value of this class,
    bytes become an atom of this class, and the two items of a tuple are
    converted in turn. *)
Fixpoint to_BaseSExp (v : SExp) : SExp :=
  match v with
  | SExp_None => null class_
  | SExp_atom b => SExp_atom b
  | SExp_tuple v0 v1 => SExp_tuple (to_BaseSExp v0) (to_BaseSExp v1)
  end.
End Class.

End SExpMethods.

(** ** tests/serialize_test.py, the helpers *)

Module SerializeTest.
Import Serialize.

(** [InfiniteStream.read]: the loop moves bytes from the buffer to the
    result while [n > 0] and the buffer is not empty. It returns the result,
    what is left of [n], and the buffer. *)
Fixpoint read_loop (buf : bytes) (n : Z) (ret : bytes) : bytes * Z * bytes :=
  match buf with
  | [] => (ret, n, [])
  | b :: buf' =>
      if 0 <? n then read_loop buf' (n - 1) (ret ++ [b])
      else (ret, n, buf)
  end.

(** [InfiniteStream.read(n)]: the bytes read, padded with spaces
    ([b' ' * n] is empty for [n <= 0]), and the buffer left in the stream. *)
Definition InfiniteStream_read (buf : bytes) (n : Z) : bytes * bytes :=
  let '(ret, n', buf') := read_loop buf n [] in
  (ret ++ replicate (Z.to_nat n') x20%byte, buf').

(** What [has_backrefs] raises: [IndexError] from [f.read(1)[0]] at the end
    of the blob, or the error of the atom reader. *)
Inductive test_exn : Type :=
| IndexError
| ValueError (e : error).

Section HasBackrefs.
(** [_atom_from_stream] of [clvm/serialize.py], which the test imports: given
    the stream and the byte already read, the atom and the stream after
    it. *)
Variable atom_from_stream : bytes → byte → result error (bytes * bytes).

(** The loop of [has_backrefs] on the stream [f] with its [obj_count];
    [fuel] bounds the number of turns. *)
Fixpoint has_backrefs_loop (fuel obj_count : nat) (f : bytes)
  : option (result test_exn bool) :=
  match fuel with
  | O => None
  | S fuel' =>
      match obj_count with
      | O => Some (Ok false)
      | S count =>
          match f with
          | [] => Some (Err IndexError)
          | b :: f1 =>
              if byte_to_Z b =? 0xfe then Some (Ok true)
              else if byte_to_Z b =? 0xff then has_backrefs_loop fuel' (S (S count)) f1
              else
                match atom_from_stream f1 b with
                | Err e => Some (Err (ValueError e))
                | Ok (_, f2) => has_backrefs_loop fuel' count f2
                end
          end
      end
  end.

(** [has_backrefs(blob)]. *)
Definition has_backrefs (blob : bytes) : option (result test_exn bool) :=
  has_backrefs_loop (S (S (length blob))) 1 blob.
End HasBackrefs.

(** Modelled from the spec: the value that [as_bin], which is not under
    src/, serializes for an instance: bytes are an atom, a tuple is a pair
    of the values of its two items. An instance that holds [None] is none
    of the serializer's values. *)
Fixpoint value_of_SExp (s : BaseSExp.SExp) : option Value :=
  match s with
  | BaseSExp.SExp_None => None
  | BaseSExp.SExp_atom v => Some (Atom v)
  | BaseSExp.SExp_tuple v0 v1 =>
      f ← value_of_SExp v0; r ← value_of_SExp v1; Some (Pair f r)
  end.

Section MakeBomb.
(** The class whose [to] is [to_sexp_f]. *)
Variable class_ : BaseSExp.sexp_class.

(** The loop of [make_bomb] in [test_deserialize_bomb]:
    [bomb = to_sexp_f((bomb, bomb))], once per turn. *)
Fixpoint make_bomb_loop (turns : nat) (bomb : BaseSExp.pyobj)
  : result BaseSExp.exn BaseSExp.pyobj :=
  match turns with
  | O => Ok bomb
  | S turns' =>
      s ← BaseSExp.to class_ (BaseSExp.PyTuple [bomb; bomb]);
      make_bomb_loop turns' (BaseSExp.PySExp s)
  end.

(** [make_bomb(depth)]: the loop starts from the bytes [TEXT]. *)
Definition make_bomb (depth : nat) : result BaseSExp.exn BaseSExp.pyobj :=
  make_bomb_loop depth (BaseSExp.PyBytes TEXT).
End MakeBomb.

End SerializeTest.

(** * Properties *)

(** ** The value model *)

Section ValueModel.
Import BaseSExp.

Lemma v_eq_spec (a b : SExp) : v_eq a b = true ↔ a = b.
Proof.
  revert b. induction a as [| x | a0 IH0 a1 IH1]; intros [| y | b0 b1]; simpl;
    try (split; [discriminate | congruence]); try tauto.
  - rewrite bool_decide_eq_true. split; congruence.
  - rewrite andb_true_iff, IH0, IH1. split; [intros []; congruence | intros [= -> ->]; auto].
Qed.

Lemma nullp_spec (class_ : sexp_class) (v : SExp) :
  nullp class_ v = Ok true ↔ v = __null__ class_.
Proof.
  unfold nullp, __eq__. simpl. split.
  - intros [= H]. apply v_eq_spec in H. congruence.
  - intros ->. f_equal. apply v_eq_spec. reflexivity.
Qed.
End ValueModel.

(** C2, as stated, fails for the class that [subclass_sexp] creates with
    its default arguments: [nullp] of the empty Atom is false there, although
    the empty Atom is deeply equal to itself. *)
Lemma nullp_empty_atom_default :
  let v := BaseSExp.SExp_atom [] in
  BaseSExp.nullp BaseSExp.default_class v = Ok false
  ∧ BaseSExp.v_eq v (BaseSExp.SExp_atom []) = true.
Proof. split; reflexivity. Qed.

(** C2 (amended): [nullp] returns true exactly on the values deeply equal
    to the null value of the class, [SExp(false)]. For a class created with
    [false=b''] that is the empty Atom; with the default [false=None] it is
    the value that holds [None], and the empty Atom is not null. *)
Theorem nullp_iff_class_null :
  (∀ class_ v, BaseSExp.nullp class_ v = Ok true
               ↔ BaseSExp.v_eq v (BaseSExp.__null__ class_) = true)
  ∧ (∀ v, BaseSExp.nullp BaseSExp.empty_atom_class v = Ok true
          ↔ BaseSExp.v_eq v (BaseSExp.SExp_atom []) = true)
  ∧ (∀ v, BaseSExp.nullp BaseSExp.default_class v = Ok true
          ↔ v = BaseSExp.SExp_None).
Proof.
  repeat split; intros H.
  - apply v_eq_spec, nullp_spec, H.
  - apply nullp_spec, v_eq_spec, H.
  - apply v_eq_spec. apply nullp_spec in H. exact H.
  - apply nullp_spec. apply v_eq_spec in H. exact H.
  - apply nullp_spec in H. exact H.
  - apply nullp_spec. exact H.
Qed.

(** C3: [first] and [rest] of an Atom raise [EvalError]; [as_atom] of a Pair
    fails on its assertion; [first] and [rest] of a Pair return its two
    components. *)
Theorem first_rest_as_atom_type_errors :
  (∀ a, BaseSExp.first (BaseSExp.SExp_atom a)
          = Err (BaseSExp.EvalError "first of non-cons" (BaseSExp.SExp_atom a))
        ∧ BaseSExp.rest (BaseSExp.SExp_atom a)
          = Err (BaseSExp.EvalError "rest of non-cons" (BaseSExp.SExp_atom a)))
  ∧ (∀ x y, BaseSExp.as_atom (BaseSExp.SExp_tuple x y) = Err BaseSExp.AssertionError)
  ∧ (∀ x y, BaseSExp.first (BaseSExp.cons x y) = Ok x
            ∧ BaseSExp.rest (BaseSExp.cons x y) = Ok y).
Proof. repeat split. Qed.

(** C10: with the default arguments the null value holds [None]; it is what
    [null()] and the conversion of [None] return; [listp] is true on it,
    [first] and [rest] raise [EvalError], and [as_atom] fails on its
    assertion. *)
Theorem default_null_neither_pair_nor_atom :
  let class_ := BaseSExp.default_class in
  let nil := BaseSExp.null class_ in
  nil = BaseSExp.SExp_None
  ∧ BaseSExp.v_eq nil (BaseSExp.SExp_atom []) = false
  ∧ BaseSExp.to class_ BaseSExp.PyNone = Ok nil
  ∧ BaseSExp.listp nil = true
  ∧ BaseSExp.first nil = Err (BaseSExp.EvalError "first of non-cons" nil)
  ∧ BaseSExp.rest nil = Err (BaseSExp.EvalError "rest of non-cons" nil)
  ∧ BaseSExp.as_atom nil = Err BaseSExp.AssertionError.
Proof. repeat split. Qed.

(** Closed powers of two, evaluated. *)
Ltac eval_pow :=
  repeat match goal with
         | |- context [2 ^ ?e] =>
             let v := eval vm_compute in (2 ^ e) in progress change (2 ^ e) with v
         | H : context [2 ^ ?e] |- _ =>
             let v := eval vm_compute in (2 ^ e) in progress change (2 ^ e) with v in H
         end.

(** ** Bytes and big-endian integers *)

Section Bytes.
Import Serialize.

Lemma byte_to_Z_range (b : byte) : 0 ≤ byte_to_Z b < 256.
Proof. unfold byte_to_Z. pose proof (Byte.to_N_bounded b). lia. Qed.

Lemma byte_of_to_Z (b : byte) : byte_of_Z (byte_to_Z b) = b.
Proof.
  unfold byte_of_Z. pose proof (byte_to_Z_range b) as Hb.
  rewrite Z.mod_small by exact Hb. unfold byte_to_Z.
  rewrite N2Z.id, Byte.of_to_N. reflexivity.
Qed.

Lemma byte_to_of_Z (z : Z) : 0 ≤ z < 256 → byte_to_Z (byte_of_Z z) = z.
Proof.
  intros Hz. unfold byte_of_Z. rewrite Z.mod_small by exact Hz.
  destruct (Byte.of_N (Z.to_N z)) as [b |] eqn:E.
  - apply Byte.to_of_N in E. unfold byte_to_Z. rewrite E. lia.
  - apply Byte.of_N_None_iff in E. lia.
Qed.

Lemma forall_below (P : Z → bool) (n : nat) :
  forallb P (map Z.of_nat (seq 0 n)) = true → ∀ z, 0 ≤ z < Z.of_nat n → P z = true.
Proof.
  rewrite forallb_forall. intros H z Hz. apply H. apply in_map_iff.
  exists (Z.to_nat z). split; [lia |]. apply in_seq. lia.
Qed.

Lemma length_be_bytes (k : nat) (n : Z) : length (be_bytes k n) = k.
Proof. induction k; simpl; congruence. Qed.

Lemma from_be_fold (bs : bytes) (acc : Z) :
  fold_left (fun a b => a * 256 + byte_to_Z b) bs acc
  = acc * 256 ^ Z.of_nat (length bs) + from_be bs.
Proof.
  unfold from_be. revert acc. induction bs as [| b bs IH]; intros acc.
  - simpl. lia.
  - cbn [fold_left length]. rewrite IH, (IH (0 * 256 + byte_to_Z b)).
    rewrite Nat2Z.inj_succ, Z.pow_succ_r by lia. lia.
Qed.

Lemma from_be_cons (b : byte) (bs : bytes) :
  from_be (b :: bs) = byte_to_Z b * 256 ^ Z.of_nat (length bs) + from_be bs.
Proof. unfold from_be at 1. cbn [fold_left]. rewrite from_be_fold. lia. Qed.

Lemma from_be_bytes (k : nat) (n : Z) :
  0 ≤ n → from_be (be_bytes k n) = n mod 256 ^ Z.of_nat k.
Proof.
  intros Hn. induction k as [| k IH].
  - simpl. rewrite Z.mod_1_r. reflexivity.
  - cbn [be_bytes]. rewrite from_be_cons, IH, length_be_bytes.
    change 0xFF with (Z.ones 8). rewrite Z.land_ones by lia.
    rewrite Z.shiftr_div_pow2 by lia.
    rewrite byte_to_of_Z by (change (2 ^ 8) with 256; apply Z.mod_pos_bound; lia).
    rewrite Nat2Z.inj_succ, Z.pow_succ_r by lia.
    replace (2 ^ (8 * Z.of_nat k)) with (256 ^ Z.of_nat k)
      by (change 256 with (2 ^ 8); rewrite <- Z.pow_mul_r by lia; reflexivity).
    change (2 ^ 8) with 256.
    assert (0 < 256 ^ Z.of_nat k) as Hp by (apply Z.pow_pos_nonneg; lia).
    rewrite (Z.mul_comm 256), Z.rem_mul_r by lia. lia.
Qed.
End Bytes.

(** ** The atom codec *)

Section AtomCodec.
Import Serialize.
Variable max_atom_size : Z.

Lemma read_app (a rest : bytes) :
  read (Z.of_nat (length a)) (a ++ rest) = Ok (a, rest).
Proof.
  unfold read. rewrite length_app.
  destruct (Z.ltb_spec (Z.of_nat (length a + length rest)) (Z.of_nat (length a))); [lia |].
  rewrite Nat2Z.id, take_app_length, drop_app_length. reflexivity.
Qed.

Lemma read_short (n : Z) (f : bytes) :
  Z.of_nat (length f) < n → read n f = Err UnexpectedEndOfInput.
Proof. intros H. unfold read. destruct (Z.ltb_spec (Z.of_nat (length f)) n); [reflexivity | lia]. Qed.

Lemma first_byte_ok (k : nat) (hi : Z) :
  (k ≤ 6)%nat → 0 ≤ hi < 2 ^ (6 - Z.of_nat k) → first_byte_check k hi = true.
Proof.
  intros Hk Hhi.
  do 7 (destruct k as [| k];
        [ match type of Hhi with
          | _ ≤ _ < ?b => apply (forall_below (first_byte_check _) (Z.to_nat b))
          end;
          [ vm_compute; reflexivity
          | revert Hhi; cbn; lia ]
        | ]).
  lia.
Qed.

Lemma size_tier_bound (len : Z) :
  0 ≤ len < 2 ^ 48 →
  (size_tier len ≤ 6)%nat
  ∧ 0 ≤ Z.shiftr len (8 * Z.of_nat (size_tier len)) < 2 ^ (6 - Z.of_nat (size_tier len))
  ∧ (len < 2 ^ 41 → size_tier len ≠ 6%nat)
  ∧ (size_tier len = 0%nat → len < 64).
Proof.
  intros Hlen. rewrite Z.shiftr_div_pow2 by lia. unfold size_tier.
  repeat match goal with
         | |- context [?x <? ?y] => destruct (Z.ltb_spec x y)
         end;
    (split; [lia |]);
    (split; [eval_pow; split; [apply Z.div_pos; lia | apply Z.div_lt_upper_bound; lia] |]);
    split; eval_pow; lia.
Qed.
Lemma pow_256 (k : nat) : 2 ^ (8 * Z.of_nat k) = 256 ^ Z.of_nat k.
Proof. change 256 with (2 ^ 8). rewrite <- Z.pow_mul_r by lia. reflexivity. Qed.

(** The decoder reads back the prefix of a length together with the payload
    that follows it. *)
Lemma size_prefix_decode (a rest : bytes) :
  let len := Z.of_nat (length a) in
  1 ≤ len < 2 ^ 48 → len ≤ max_atom_size →
  ∃ b0 tl, size_prefix len = b0 :: tl
    ∧ byte_to_Z b0 ≠ 0xFF
    ∧ byte_to_Z b0 ≠ 0x00
    ∧ (len < 2 ^ 41 → byte_to_Z b0 ≠ 0xFE)
    ∧ _atom_from_stream max_atom_size ((tl ++ a) ++ rest) b0 = Ok (a, rest).
Proof.
  intros len Hlen Hmax. unfold size_prefix.
  destruct (size_tier_bound len) as (Hk & Hhi & H41 & H0); [lia |].
  pose proof (first_byte_ok _ _ Hk Hhi) as Hc. unfold first_byte_check in Hc.
  set (k := size_tier len) in *.
  set (b0 := byte_of_Z (Z.lor (marker k) (Z.shiftr len (8 * Z.of_nat k)))) in *.
  exists b0, (be_bytes k len). split; [reflexivity |].
  unfold _atom_from_stream. destruct k as [| k'] eqn:Ek.
  - repeat (apply andb_prop in Hc; destruct Hc as [Hc ?]).
    change (8 * Z.of_nat 0) with 0 in *. rewrite Z.shiftr_0_r in *.
    repeat split; try lia.
    destruct (Z.eqb_spec (byte_to_Z b0) 0x80); [lia |].
    destruct (Z.ltb_spec (byte_to_Z b0) 0x80); [lia |].
    destruct (Z.ltb_spec (byte_to_Z b0) 0xC0); [| lia].
    replace (Z.land (byte_to_Z b0) 0x3F) with len by lia.
    simpl. apply read_app.
  - repeat (apply andb_prop in Hc; destruct Hc as [Hc ?]).
    apply bool_decide_eq_true in H1.
    repeat split; try lia.
    { intros Hl E. apply H41 in Hl. rewrite E in H. simpl in H.
      apply bool_decide_eq_true in H. congruence. }
    destruct (Z.eqb_spec (byte_to_Z b0) 0x80); [lia |].
    destruct (Z.ltb_spec (byte_to_Z b0) 0x80); [lia |].
    destruct (Z.ltb_spec (byte_to_Z b0) 0xC0); [lia |].
    rewrite H1. rewrite <- app_assoc.
    rewrite <- (length_be_bytes (S k') len) at 1. rewrite read_app. cbn [mbind result_bind].
    rewrite from_be_bytes by lia.
    rewrite Z.shiftr_div_pow2, pow_256 by lia.
    assert (0 < 256 ^ Z.of_nat (S k')) as Hp by (apply Z.pow_pos_nonneg; lia).
    replace (len `div` 256 ^ Z.of_nat (S k') * 256 ^ Z.of_nat (S k')
             + len `mod` 256 ^ Z.of_nat (S k')) with len
      by (rewrite (Z.div_mod len (256 ^ Z.of_nat (S k'))) at 1 by lia; lia).
    destruct (Z.ltb_spec max_atom_size len); [lia |].
    apply read_app.
Qed.

(** The atom codec round trip: what [atom_to_byte_iterator] emits for an
    atom, [_atom_from_stream] reads back from its first byte on, leaving the
    rest of the stream. *)
Lemma atom_roundtrip (a bs : bytes) :
  atom_to_byte_iterator max_atom_size a = Ok bs →
  ∃ b0 tl, bs = b0 :: tl
    ∧ byte_to_Z b0 ≠ 0xFF
    ∧ (Z.of_nat (length a) < 2 ^ 41 → byte_to_Z b0 ≠ 0xFE)
    ∧ ∀ rest, _atom_from_stream max_atom_size (tl ++ rest) b0 = Ok (a, rest).
Proof.
  unfold atom_to_byte_iterator. destruct a as [| x tl].
  - intros [= <-]. exists x80%byte, []. repeat split; try (vm_compute; congruence).
  - destruct (bool_decide (tl = []) && (byte_to_Z x <? 0x80)) eqn:E1.
    + apply andb_prop in E1 as [E1 E2]. apply bool_decide_eq_true in E1. subst tl.
      apply Z.ltb_lt in E2. intros [= <-]. exists x, [].
      repeat split; try lia. intros rest. unfold _atom_from_stream.
      destruct (Z.eqb_spec (byte_to_Z x) 0x80); [lia |].
      destruct (Z.ltb_spec (byte_to_Z x) 0x80); [| lia]. reflexivity.
    + destruct (_ || _) eqn:E2; [discriminate |].
      apply orb_false_elim in E2 as [E2 E3].
      apply Z.ltb_ge in E2. apply Z.leb_gt in E3. intros Heq.
      assert (bs = size_prefix (Z.of_nat (length (x :: tl))) ++ x :: tl) as ->
        by congruence.
      clear Heq.
      destruct (size_prefix_decode (x :: tl) []) as (b0 & t & Hp & Hff & _ & Hfe & _).
      { cbn [length] in *. lia. } { lia. }
      exists b0, (t ++ x :: tl). rewrite Hp. repeat split; try assumption.
      intros rest.
      destruct (size_prefix_decode (x :: tl) rest) as (b0' & t' & Hp' & _ & _ & _ & Hd).
      { cbn [length] in *. lia. } { lia. }
      rewrite Hp in Hp'. injection Hp' as <- <-. exact Hd.
Qed.
End AtomCodec.

(** ** The tree decoder on uncompressed encodings *)

Section TreeCodec.
Import Serialize.
Variable max_atom_size : Z.

Lemma decode_loop_object (allow : bool) (fuel : nat) (stack : list frame)
  (offsets offsets' : gmap Z Value) (pos : Z) (f f' : bytes) (v : Value) :
  read_token max_atom_size allow offsets pos f = Ok (Object v offsets' f') →
  decode_loop max_atom_size allow (S fuel) stack offsets pos f
  = continue_with max_atom_size allow fuel (resolve allow v stack offsets') (advance pos f f') f'.
Proof.
  intros H. cbn [decode_loop]. rewrite H. unfold continue_with.
  destruct (resolve allow v stack offsets') as [[r | stack'] offsets'']; reflexivity.
Qed.

Lemma decode_loop_pair (allow : bool) (fuel : nat) (stack : list frame)
  (offsets : gmap Z Value) (pos : Z) (f : bytes) :
  decode_loop max_atom_size allow (S fuel) stack offsets pos (xff%byte :: f)
  = decode_loop max_atom_size allow fuel (AwaitFirst pos :: stack) offsets (pos + 1) f.
Proof.
  cbn [decode_loop read_token]. change (byte_to_Z xff =? 255) with true. cbv iota.
  f_equal. unfold advance. cbn [length]. lia.
Qed.

(** Without back-references an atom's encoding is read as one object. *)
Lemma read_token_atom (a bs rest : bytes) (offsets : gmap Z Value) (pos : Z) :
  atom_to_byte_iterator max_atom_size a = Ok bs →
  read_token max_atom_size false offsets pos (bs ++ rest)
  = Ok (Object (Atom a) offsets rest).
Proof.
  intros H. destruct (atom_roundtrip max_atom_size a bs H) as (b0 & tl & -> & Hff & _ & Hd).
  cbn [read_token app]. destruct (Z.eqb_spec (byte_to_Z b0) 0xFF); [lia |].
  cbn [andb]. rewrite Hd. reflexivity.
Qed.

Lemma atom_encoding_nonempty (a bs : bytes) :
  atom_to_byte_iterator max_atom_size a = Ok bs → (0 < length bs)%nat.
Proof.
  intros H. destruct (atom_roundtrip max_atom_size a bs H) as (b0 & tl & -> & _).
  cbn [length]. lia.
Qed.

(** The decoder, started on the uncompressed encoding of [v] followed by
    [rest], reads [v], resolves it against its stack and goes on with
    [rest]. *)
Lemma decode_loop_encoded (v : Value) :
  ∀ b, sexp_to_bytes max_atom_size v = Ok b →
  ∀ fuel stack offsets pos rest, (length (b ++ rest) < fuel)%nat →
  ∃ fuel', (length rest < fuel')%nat
    ∧ decode_loop max_atom_size false fuel stack offsets pos (b ++ rest)
      = continue_with max_atom_size false fuel'
          (resolve false v stack offsets) (pos + Z.of_nat (length b)) rest.
Proof.
  induction v as [a | vf IHf vr IHr]; intros b Hb fuel stack offsets pos rest Hfuel.
  - cbn [sexp_to_bytes] in Hb. destruct fuel as [| fuel]; [lia |].
    pose proof (atom_encoding_nonempty _ _ Hb) as Hne.
    exists fuel. rewrite length_app in Hfuel. split; [lia |].
    rewrite (decode_loop_object false fuel stack offsets offsets pos (b ++ rest) rest (Atom a))
      by (apply read_token_atom; exact Hb).
    f_equal. unfold advance. rewrite length_app. lia.
  - cbn [sexp_to_bytes] in Hb.
    destruct (sexp_to_bytes max_atom_size vf) as [bf |] eqn:Ef; [| discriminate].
    destruct (sexp_to_bytes max_atom_size vr) as [br |] eqn:Er; [| discriminate].
    cbn in Hb. assert (b = xff%byte :: bf ++ br) as -> by congruence. clear Hb.
    destruct fuel as [| fuel]; [lia |].
    cbn [app]. rewrite decode_loop_pair, <- app_assoc.
    cbn [length app] in Hfuel. rewrite <- app_assoc in Hfuel.
    destruct (IHf bf eq_refl fuel (AwaitFirst pos :: stack) offsets (pos + 1) (br ++ rest))
      as (fuel1 & Hfuel1 & ->); [lia |].
    cbn [resolve continue_with].
    destruct (IHr br eq_refl fuel1 (AwaitRest pos vf :: stack) offsets
                (pos + 1 + Z.of_nat (length bf)) rest)
      as (fuel2 & Hfuel2 & ->); [lia |].
    exists fuel2. split; [exact Hfuel2 |].
    cbn [resolve record]. f_equal. cbn [length]. rewrite length_app. lia.
Qed.
End TreeCodec.

(** ** The tree decoder on compressed encodings *)

Section Backrefs.
Import Serialize.
Variable max_atom_size : Z.

Lemma subobjects_size (o x : Obj) : In x (subobjects o) → (obj_size x ≤ obj_size o)%nat.
Proof.
  induction o as [i a | i f IHf r IHr]; cbn [subobjects In].
  - intros [<- | []]. lia.
  - rewrite in_app_iff. intros [<- | [H | H]]; cbn [obj_size];
      [lia | apply IHf in H; lia | apply IHr in H; lia].
Qed.

Lemma subobjects_self (o : Obj) : In o (subobjects o).
Proof. destruct o; left; reflexivity. Qed.

Lemma consistent_ids_pair (i : nat) (f r : Obj) :
  consistent_ids (OPair i f r) → consistent_ids f ∧ consistent_ids r.
Proof.
  intros H. split; intros x y Hx Hy; apply H; cbn [subobjects In];
    right; apply in_app_iff; auto.
Qed.

Lemma from_be_int_to_bytes (d : Z) : 0 ≤ d → from_be (int_to_bytes d) = d.
Proof.
  intros Hd. unfold int_to_bytes. rewrite from_be_bytes by lia.
  apply Z.mod_small. split; [lia |]. unfold byte_length.
  destruct (Z.leb_spec d 0) as [H0 | H0].
  - change (256 ^ Z.of_nat 0) with 1. lia.
  - pose proof (Z.log2_nonneg d) as Hl.
    destruct (Z.log2_spec d H0) as [_ Hlt].
    assert (0 ≤ Z.log2 d `div` 8) by (apply Z.div_pos; lia).
    rewrite Z2Nat.id by lia. change 256 with (2 ^ 8).
    rewrite <- Z.pow_mul_r by lia.
    eapply Z.lt_le_trans; [exact Hlt |].
    apply Z.pow_le_mono_r; [lia |].
    pose proof (Z.mod_pos_bound (Z.log2 d) 8 ltac:(lia)).
    pose proof (Z.div_mod (Z.log2 d) 8 ltac:(lia)). lia.
Qed.

(** With back-references enabled, the marker and payload emitted for the
    offset [off] are read back as the value recorded at [off]. *)
Lemma read_token_backref (p rest : bytes) (offsets : gmap Z Value) (pos off : Z) (v : Value) :
  backref_payload max_atom_size (pos - off) = Ok p →
  off ≤ pos →
  offsets !! off = Some v →
  read_token max_atom_size true offsets pos (xfe%byte :: p ++ rest)
  = Ok (Object v offsets rest).
Proof.
  intros Hp Hoff Hv. unfold backref_payload in Hp.
  destruct (atom_roundtrip max_atom_size _ _ Hp) as (b1 & tl & -> & _ & _ & Hd).
  cbn [read_token app]. change (byte_to_Z xfe =? 255) with false.
  change (byte_to_Z xfe =? 254) with true. cbn [andb]. cbv iota.
  rewrite Hd. cbn [mbind result_bind]. rewrite from_be_int_to_bytes by lia.
  replace (pos - (pos - off)) with off by lia. rewrite Hv. reflexivity.
Qed.

Lemma atom_encoded_length (a bs : bytes) :
  atom_to_byte_iterator max_atom_size a = Ok bs →
  Z.of_nat (length a) ≤ Z.max 1 max_atom_size.
Proof.
  unfold atom_to_byte_iterator. destruct a as [| x tl]; [cbn; lia |].
  destruct (bool_decide (tl = []) && (byte_to_Z x <? 0x80)) eqn:E1.
  - apply andb_prop in E1 as [E1 _]. apply bool_decide_eq_true in E1. subst. cbn. lia.
  - destruct (_ || _) eqn:E2; [discriminate |].
    apply orb_false_elim in E2 as [E2 _]. apply Z.ltb_ge in E2. lia.
Qed.

(** With back-references enabled, an atom's encoding is read as one object
    and recorded at its offset. *)
Lemma read_token_atom_backrefs (a bs rest : bytes) (offsets : gmap Z Value) (pos : Z) :
  max_atom_size < 2 ^ 41 →
  atom_to_byte_iterator max_atom_size a = Ok bs →
  read_token max_atom_size true offsets pos (bs ++ rest)
  = Ok (Object (Atom a) (<[pos := Atom a]> offsets) rest).
Proof.
  intros Hmax H. pose proof (atom_encoded_length _ _ H) as Hlen.
  destruct (atom_roundtrip max_atom_size a bs H) as (b0 & tl & -> & Hff & Hfe & Hd).
  cbn [read_token app]. destruct (Z.eqb_spec (byte_to_Z b0) 0xFF); [lia |].
  destruct (Z.eqb_spec (byte_to_Z b0) 0xFE) as [E | _]; [exfalso; revert E; apply Hfe; eval_pow; lia |].
  cbn [andb]. rewrite Hd. reflexivity.
Qed.
Lemma read_back_backref (o : Obj) (seen : gmap nat Z) (pos off : Z) (p : bytes)
  (offsets : gmap Z Value) :
  backref_payload max_atom_size (pos - off) = Ok p →
  off < pos →
  offsets !! off = Some (value_of o) →
  read_back max_atom_size o seen seen pos (xfe%byte :: p) offsets.
Proof.
  intros Hp Hoff Hv. exists offsets. split; [cbn [length]; lia |].
  split; [reflexivity |]. split; [auto |].
  intros fuel stack rest Hfuel. destruct fuel as [| fuel]; [lia |].
  exists fuel. cbn [length app] in Hfuel. rewrite length_app in Hfuel. split; [lia |].
  cbn [app].
  rewrite (decode_loop_object max_atom_size true fuel stack offsets offsets pos _ rest (value_of o))
    by (apply read_token_backref with (off := off); [exact Hp | lia | exact Hv]).
  f_equal. unfold advance. cbn [length]. rewrite length_app. lia.
Qed.

Lemma pair_not_in_child (i : nat) (f r x : Obj) :
  In x (subobjects f ++ subobjects r) → x ≠ OPair i f r.
Proof.
  intros H ->. apply in_app_iff in H as [H | H]; apply subobjects_size in H;
    cbn [obj_size] in H; lia.
Qed.

(** The round trip of the compressed encoding, for the decoder's loop. *)
Lemma decode_loop_backrefs (o : Obj) :
  max_atom_size < 2 ^ 41 →
  ∀ seen pos b seen' offsets,
  consistent_ids o →
  sexp_to_bytes_backrefs max_atom_size o seen pos = Ok (b, seen') →
  (∀ i off, seen !! i = Some off → off < pos) →
  (∀ x off, In x (subobjects o) → seen !! oid x = Some off →
            offsets !! off = Some (value_of x)) →
  read_back max_atom_size o seen seen' pos b offsets.
Proof.
  intros Hmax.
  induction o as [i a | i f IHf r IHr]; intros seen pos b seen' offsets Hc Henc Hlt Hpre;
    cbn [sexp_to_bytes_backrefs oid] in Henc;
    destruct (seen !! i) as [off |] eqn:Es.
  - destruct (backref_payload max_atom_size (pos - off)) as [p |] eqn:Ep; [| discriminate].
    cbn in Henc. assert (b = xfe%byte :: p ∧ seen' = seen) as [-> ->] by (split; congruence).
    apply read_back_backref with (off := off); [exact Ep | eauto |].
    apply (Hpre (OAtom i a)); [apply subobjects_self | exact Es].
  - destruct (atom_to_byte_iterator max_atom_size a) as [bs |] eqn:Ea; [| discriminate].
    cbn in Henc. assert (b = bs ∧ seen' = <[i := pos]> seen) as [-> ->] by (split; congruence).
    pose proof (atom_encoding_nonempty _ _ _ Ea) as Hne.
    exists (<[pos := Atom a]> offsets). split; [exact Hne |].
    split; [intros k Hk; apply lookup_insert_ne; lia |]. split.
    + intros i0 off Hi0. apply lookup_insert_Some in Hi0 as [[<- <-] | [_ Hi0]]; [| auto].
      right. exists (OAtom i a). split; [apply subobjects_self |].
      split; [reflexivity |]. split; [lia |]. apply lookup_insert_eq.
    + intros fuel stack rest Hfuel. destruct fuel as [| fuel]; [lia |].
      exists fuel. rewrite length_app in Hfuel. split; [lia |].
      rewrite (decode_loop_object max_atom_size true fuel stack offsets
                 (<[pos := Atom a]> offsets) pos (bs ++ rest) rest (Atom a))
        by (apply read_token_atom_backrefs; assumption).
      f_equal. unfold advance. rewrite length_app. lia.
  - destruct (backref_payload max_atom_size (pos - off)) as [p |] eqn:Ep; [| discriminate].
    cbn in Henc. assert (b = xfe%byte :: p ∧ seen' = seen) as [-> ->] by (split; congruence).
    apply read_back_backref with (off := off); [exact Ep | eauto |].
    apply (Hpre (OPair i f r)); [apply subobjects_self | exact Es].
  - destruct (sexp_to_bytes_backrefs max_atom_size f (<[i := pos]> seen) (pos + 1))
      as [[bf seen2] |] eqn:Ef; [| discriminate].
    cbn [mbind result_bind] in Henc.
    destruct (sexp_to_bytes_backrefs max_atom_size r seen2 (pos + 1 + Z.of_nat (length bf)))
      as [[br seen3] |] eqn:Er; [| discriminate].
    cbn in Henc.
    assert (b = xff%byte :: bf ++ br ∧ seen' = seen3) as [-> ->] by (split; congruence).
    clear Henc. destruct (consistent_ids_pair _ _ _ Hc) as [Hcf Hcr].
    assert (∀ x, In x (subobjects f ++ subobjects r) → oid x ≠ i) as Hfresh.
    { intros x Hx Hi. apply (pair_not_in_child i f r x Hx).
      apply Hc; [right; exact Hx | apply subobjects_self | exact Hi]. }
    destruct (IHf (<[i := pos]> seen) (pos + 1) bf seen2 offsets Hcf Ef)
      as (offsets2 & Hnf & Hframe_f & Hseen_f & Hloop_f).
    { intros i0 off Hi0. apply lookup_insert_Some in Hi0 as [[_ <-] | [_ Hi0]];
        [lia | apply Hlt in Hi0; lia]. }
    { intros x off Hx Hs. apply lookup_insert_Some in Hs as [[Hi _] | [_ Hs]].
      - exfalso. apply (Hfresh x); [apply in_app_iff; auto | congruence].
      - apply Hpre; [right; apply in_app_iff; auto | exact Hs]. }
    destruct (IHr seen2 (pos + 1 + Z.of_nat (length bf)) br seen3 offsets2 Hcr Er)
      as (offsets3 & Hnr & Hframe_r & Hseen_r & Hloop_r).
    { intros i0 off Hi0. apply Hseen_f in Hi0 as [Hi0 | (x & _ & _ & Hr & _)]; [| lia].
      apply lookup_insert_Some in Hi0 as [[_ <-] | [_ Hi0]];
        [lia | apply Hlt in Hi0; lia]. }
    { intros x off Hx Hs. apply Hseen_f in Hs as [Hs | (x' & Hx' & Hi & _ & Hv)].
      - apply lookup_insert_Some in Hs as [[Hi _] | [_ Hs]].
        + exfalso. apply (Hfresh x); [apply in_app_iff; auto | congruence].
        + rewrite Hframe_f by (apply Hlt in Hs; lia).
          apply Hpre; [right; apply in_app_iff; auto | exact Hs].
      - assert (x' = x) as <-; [| exact Hv].
        apply Hc; [right; apply in_app_iff; auto | right; apply in_app_iff; auto | exact Hi]. }
    cbn [value_of].
    exists (<[pos := Pair (value_of f) (value_of r)]> offsets3).
    split; [cbn [length]; lia |]. split.
    { intros k Hk. rewrite lookup_insert_ne by lia.
      rewrite Hframe_r by lia. apply Hframe_f. lia. }
    split.
    { intros i0 off Hi0. cbn [length]. rewrite length_app.
      apply Hseen_r in Hi0 as [Hi0 | (x & Hx & Hi & Hr & Hv)].
      - apply Hseen_f in Hi0 as [Hi0 | (x & Hx & Hi & Hr & Hv)].
        + apply lookup_insert_Some in Hi0 as [[<- <-] | [_ Hi0]]; [| auto].
          right. exists (OPair i f r). split; [apply subobjects_self |].
          split; [reflexivity |]. split; [lia |]. apply lookup_insert_eq.
        + right. exists x. split; [right; apply in_app_iff; auto |].
          split; [exact Hi |]. split; [lia |].
          rewrite lookup_insert_ne by lia. rewrite Hframe_r by lia. exact Hv.
      - right. exists x. split; [right; apply in_app_iff; auto |].
        split; [exact Hi |]. split; [lia |].
        rewrite lookup_insert_ne by lia. exact Hv. }
    intros fuel stack rest Hfuel. destruct fuel as [| fuel]; [lia |].
    cbn [app]. rewrite decode_loop_pair, <- app_assoc.
    cbn [length app] in Hfuel. rewrite <- app_assoc in Hfuel.
    destruct (Hloop_f fuel (AwaitFirst pos :: stack) (br ++ rest))
      as (fuel1 & Hfuel1 & ->); [lia |].
    cbn [resolve continue_with].
    destruct (Hloop_r fuel1 (AwaitRest pos (value_of f) :: stack) rest)
      as (fuel2 & Hfuel2 & ->); [lia |].
    exists fuel2. split; [exact Hfuel2 |].
    cbn [resolve record]. f_equal. cbn [length]. rewrite length_app. lia.
Qed.
End Backrefs.

(** ** Round trip *)

Section RoundTrip.
Import Serialize.

Lemma Obj_eqb_spec (x y : Obj) : Obj_eqb x y = true ↔ x = y.
Proof.
  revert y. induction x as [i a | i f IHf r IHr]; intros [j b | j g t]; cbn [Obj_eqb];
    try (split; [discriminate | congruence]).
  - rewrite andb_true_iff, !bool_decide_eq_true. split; [intros []; congruence | intros [= -> ->]; auto].
  - rewrite !andb_true_iff, bool_decide_eq_true, IHf, IHr.
    split; [intros [[] ?]; congruence | intros [= -> -> ->]; auto].
Qed.

Lemma consistent_idsb_sound (o : Obj) : consistent_idsb o = true → consistent_ids o.
Proof.
  unfold consistent_idsb, consistent_ids. rewrite forallb_forall.
  intros H o1 o2 H1 H2 Hi. specialize (H o1 H1). rewrite forallb_forall in H.
  specialize (H o2 H2). rewrite (bool_decide_eq_true_2 _ Hi) in H.
  apply Obj_eqb_spec. exact H.
Qed.

Lemma atom_too_long (max_atom_size : Z) (a : bytes) :
  max_atom_size < Z.of_nat (length a) → 1 < Z.of_nat (length a) →
  atom_to_byte_iterator max_atom_size a = Err SizeLimitExceeded.
Proof.
  intros Hmax Hlen. unfold atom_to_byte_iterator.
  destruct a as [| x [| y tl]]; cbn [length] in Hlen; [lia | lia |].
  rewrite bool_decide_eq_false_2 by discriminate. cbn [andb].
  destruct (Z.ltb_spec max_atom_size (Z.of_nat (length (x :: y :: tl)))); [reflexivity | lia].
Qed.

Lemma sexp_from_stream_encoded (max_atom_size : Z) (v : Value) (b : bytes) :
  sexp_to_bytes max_atom_size v = Ok b →
  sexp_from_stream max_atom_size false b = Some (Ok (v, [])).
Proof.
  intros Hb. unfold sexp_from_stream.
  destruct (decode_loop_encoded max_atom_size v b Hb (S (length b)) [] ∅ 0 [])
    as (fuel' & _ & H); [rewrite app_nil_r; lia |].
  rewrite app_nil_r in H. rewrite H. reflexivity.
Qed.

Lemma sexp_from_stream_backrefs (max_atom_size : Z) (o : Obj) (b : bytes) (seen : gmap nat Z) :
  max_atom_size < 2 ^ 41 → consistent_ids o →
  sexp_to_bytes_backrefs max_atom_size o ∅ 0 = Ok (b, seen) →
  sexp_from_stream max_atom_size true b = Some (Ok (value_of o, [])).
Proof.
  intros Hmax Hc Hb. unfold sexp_from_stream.
  destruct (decode_loop_backrefs max_atom_size o Hmax ∅ 0 b seen ∅ Hc Hb)
    as (offsets' & _ & _ & _ & Hloop).
  { intros i off H. rewrite lookup_empty in H. discriminate. }
  { intros x off _ H. rewrite lookup_empty in H. discriminate. }
  destruct (Hloop (S (length b)) [] []) as (fuel' & _ & H); [rewrite app_nil_r; lia |].
  rewrite app_nil_r in H. rewrite H. reflexivity.
Qed.
(** The encoder accepts every value whose atoms are within the limit. *)
Lemma sexp_to_bytes_defined (max_atom_size : Z) (v : Value) :
  max_atom_size < 2 ^ 48 → atoms_within max_atom_size v →
  ∃ b, sexp_to_bytes max_atom_size v = Ok b.
Proof.
  intros Hmax. induction v as [a | f IHf r IHr]; cbn [atoms_within sexp_to_bytes].
  - intros Ha. unfold atom_to_byte_iterator. destruct a as [| x tl]; [eauto |].
    destruct (_ && _); [eauto |].
    destruct (Z.ltb_spec max_atom_size (Z.of_nat (length (x :: tl)))); [lia |].
    destruct (Z.leb_spec (2 ^ 48) (Z.of_nat (length (x :: tl)))); [lia |].
    cbn [orb]. eauto.
  - intros [Hf Hr]. destruct (IHf Hf) as [bf ->]. destruct (IHr Hr) as [br ->].
    cbn. eauto.
Qed.
End RoundTrip.

(** C1, as stated for every Value, fails: a Value that holds an atom longer
    than the supported maximum has no encoding, compressed or not; the
    encoder rejects it. Here the atom has [0x400000000] bytes and the limit
    is that of the reference format. *)
Lemma oversized_atom_has_no_encoding :
  let o := Serialize.OAtom 0 (replicate (Z.to_nat 0x400000000) x00%byte) in
  Serialize.as_bin Serialize.reference_max_atom_size false o = Err Serialize.SizeLimitExceeded
  ∧ Serialize.as_bin Serialize.reference_max_atom_size true o = Err Serialize.SizeLimitExceeded.
Proof.
  assert (Serialize.atom_to_byte_iterator Serialize.reference_max_atom_size
            (replicate (Z.to_nat 0x400000000) x00%byte) = Err Serialize.SizeLimitExceeded) as H.
  { apply atom_too_long; rewrite length_replicate, Z2Nat.id by lia;
      unfold Serialize.reference_max_atom_size; lia. }
  split.
  - unfold Serialize.as_bin. cbn [Serialize.value_of Serialize.sexp_to_bytes]. exact H.
  - unfold Serialize.as_bin. cbn [Serialize.sexp_to_bytes_backrefs Serialize.oid].
    rewrite lookup_empty, H. reflexivity.
Qed.

(** C1 (amended): for every Value that the encoder accepts, decoding its
    uncompressed encoding yields the Value, and decoding its compressed
    encoding with back-references enabled yields the Value. The object is
    given with consistent identities, and the format's maximum atom length
    is below [2^41], so that no atom's prefix begins with [0xFE]. *)
Theorem roundtrip_of_encodable_values (max_atom_size : Z) (o : Serialize.Obj) (b b2 : bytes) :
  max_atom_size < 2 ^ 41 →
  Serialize.consistent_ids o →
  Serialize.as_bin max_atom_size false o = Ok b →
  Serialize.as_bin max_atom_size true o = Ok b2 →
  Serialize.sexp_from_stream max_atom_size false b = Some (Ok (Serialize.value_of o, []))
  ∧ Serialize.sexp_from_stream max_atom_size true b2 = Some (Ok (Serialize.value_of o, [])).
Proof.
  intros Hmax Hc Hb Hb2. split.
  - apply sexp_from_stream_encoded. exact Hb.
  - unfold Serialize.as_bin in Hb2.
    destruct (Serialize.sexp_to_bytes_backrefs max_atom_size o ∅ 0) as [[c seen] |] eqn:E;
      [| discriminate].
    cbn in Hb2. assert (c = b2) as -> by congruence.
    apply (sexp_from_stream_backrefs max_atom_size o b2 seen Hmax Hc E).
Qed.

Lemma roundtrip_of_encodable_values_witness :
  let nil := Serialize.OAtom 0 [] in
  let o := Serialize.OPair 2 (Serialize.OPair 1 nil (Serialize.OAtom 3 [x61; x62]%byte))
             (Serialize.OPair 1 nil (Serialize.OAtom 3 [x61; x62]%byte)) in
  Serialize.sexp_from_stream Serialize.reference_max_atom_size false
    [xff; xff; x80; x82; x61; x62; xff; x80; x82; x61; x62]%byte
  = Some (Ok (Serialize.value_of o, []))
  ∧ Serialize.sexp_from_stream Serialize.reference_max_atom_size true
      [xff; xff; x80; x82; x61; x62; xfe; x05]%byte
    = Some (Ok (Serialize.value_of o, [])).
Proof.
  intros nil o.
  apply (roundtrip_of_encodable_values Serialize.reference_max_atom_size o).
  - vm_compute. reflexivity.
  - apply consistent_idsb_sound. vm_compute. reflexivity.
  - vm_compute. reflexivity.
  - vm_compute. reflexivity.
Defined.

(** ** Small atoms, sizes, and malformed input *)

(** C9: the empty Atom is encoded as the single byte [0x80], and a
    single-byte Atom whose byte is below [0x80] as that byte; with or without
    back-references, whatever the size limit. *)
Theorem small_atoms_encode_to_one_byte (max_atom_size : Z) (allow_backrefs : bool)
  (i : nat) (b0 : byte) :
  Serialize.as_bin max_atom_size allow_backrefs (Serialize.OAtom i []) = Ok [x80%byte]
  ∧ (Serialize.byte_to_Z b0 < 0x80 →
     Serialize.as_bin max_atom_size allow_backrefs (Serialize.OAtom i [b0]) = Ok [b0]).
Proof.
  split.
  - destruct allow_backrefs; reflexivity.
  - intros Hb.
    assert (Serialize.atom_to_byte_iterator max_atom_size [b0] = Ok [b0]) as H.
    { unfold Serialize.atom_to_byte_iterator.
      destruct (Z.ltb_spec (Serialize.byte_to_Z b0) 0x80); [reflexivity | lia]. }
    destruct allow_backrefs; unfold Serialize.as_bin.
    + cbn [Serialize.sexp_to_bytes_backrefs Serialize.oid].
      rewrite lookup_empty, H. reflexivity.
    + exact H.
Qed.

Lemma small_atoms_encode_to_one_byte_witness :
  Serialize.as_bin Serialize.reference_max_atom_size false (Serialize.OAtom 0 []) = Ok [x80%byte]
  ∧ Serialize.as_bin Serialize.reference_max_atom_size false (Serialize.OAtom 0 [x00%byte])
    = Ok [x00%byte].
Proof.
  split.
  - apply (small_atoms_encode_to_one_byte Serialize.reference_max_atom_size false 0 x00%byte).
  - apply (small_atoms_encode_to_one_byte Serialize.reference_max_atom_size false 0 x00%byte).
    vm_compute. reflexivity.
Defined.

Section Malformed.
Import Serialize.
Variable max_atom_size : Z.



End Malformed.



(** ** The buffer scanner *)

Section Scanner.
Import Serialize.
Variable max_atom_size : Z.
Variable allow_backrefs : bool.

Lemma resolve_values_to_read (v : Value) (stack : list frame) (offsets : gmap Z Value) :
  match resolve allow_backrefs v stack offsets with
  | (inl _, _) => values_to_read stack = 1%nat
  | (inr stack', _) => values_to_read stack = S (values_to_read stack')
  end.
Proof.
  revert v offsets. induction stack as [| [start | start f] stack IH]; intros v offsets;
    cbn [resolve values_to_read]; [reflexivity | reflexivity | apply IH].
Qed.

Lemma values_to_read_pos (stack : list frame) : ∃ c, values_to_read stack = S c.
Proof.
  induction stack as [| [start | start f] stack IH]; cbn [values_to_read]; eauto.
Qed.

(** The scanner follows the decoder: where the decoder's loop ends with a
    value and the rest of the stream, the scanner's loop, started with the
    counter of the decoder's stack, ends with the same rest. *)
Lemma scan_loop_follows_decode_loop (fuel : nat) :
  ∀ stack offsets pos f v rest,
  decode_loop max_atom_size allow_backrefs fuel stack offsets pos f = Some (Ok (v, rest)) →
  scan_loop max_atom_size allow_backrefs (S fuel) (values_to_read stack) f = Some (Ok rest).
Proof.
  induction fuel as [| fuel IH]; intros stack offsets pos f v rest H; [discriminate |].
  cbn [decode_loop] in H.
  destruct (values_to_read_pos stack) as [c Hc]. rewrite Hc.
  cbn [scan_loop]. unfold read_token in H.
  destruct f as [| b f1]; [discriminate |].
  destruct (byte_to_Z b =? 255).
  { apply IH in H. cbn [values_to_read] in H. rewrite Hc in H. exact H. }
  assert (∀ v0 offsets0 f',
    match resolve allow_backrefs v0 stack offsets0 with
    | (inl r, _) => Some (Ok (r, f'))
    | (inr stack', offsets'') =>
        decode_loop max_atom_size allow_backrefs fuel stack' offsets''
          (advance pos (b :: f1) f') f'
    end = Some (Ok (v, rest)) →
    scan_loop max_atom_size allow_backrefs (S fuel) c f' = Some (Ok rest)) as Hobj.
  { intros v0 offsets0 f' H0.
    pose proof (resolve_values_to_read v0 stack offsets0) as Hr.
    destruct (resolve allow_backrefs v0 stack offsets0) as [[r | stack'] offsets''].
    - assert (c = 0%nat) as -> by lia. injection H0 as _ <-. reflexivity.
    - apply IH in H0. assert (c = values_to_read stack') as -> by lia. exact H0. }
  destruct (allow_backrefs && (byte_to_Z b =? 254)).
  - destruct f1 as [| b1 f2]; [discriminate |].
    destruct (_atom_from_stream max_atom_size f2 b1) as [[payload f3] |]; [| discriminate].
    cbn [mbind result_bind] in H.
    destruct (offsets !! (pos - from_be payload)) as [v0 |]; [| discriminate].
    apply (Hobj v0 offsets f3). exact H.
  - destruct (_atom_from_stream max_atom_size f1 b) as [[a f2] |]; [| discriminate].
    cbn [mbind result_bind] in H. eapply Hobj. exact H.
Qed.

Lemma read_suffix (n : Z) (f a f' : bytes) : read n f = Ok (a, f') → f = a ++ f'.
Proof.
  unfold read. destruct (Z.of_nat (length f) <? n); [discriminate |].
  intros [= <- <-]. symmetry. apply take_drop.
Qed.

Lemma atom_from_stream_suffix (f : bytes) (b0 : byte) (a f' : bytes) :
  _atom_from_stream max_atom_size f b0 = Ok (a, f') → ∃ p, f = p ++ f'.
Proof.
  unfold _atom_from_stream.
  destruct (byte_to_Z b0 =? 128); [intros [= <- <-]; exists []; reflexivity |].
  destruct (byte_to_Z b0 <? 128); [intros [= <- <-]; exists []; reflexivity |].
  destruct (byte_to_Z b0 <? 192); [intros H; apply read_suffix in H; eauto |].
  destruct (length_field (byte_to_Z b0)) as [[hi k] |]; [| discriminate].
  destruct (read k f) as [[field f1] |] eqn:E1; [| discriminate].
  cbn [mbind result_bind].
  destruct (max_atom_size <? hi * 256 ^ k + from_be field); [discriminate |].
  intros H. apply read_suffix in H. apply read_suffix in E1. subst.
  exists (field ++ a). rewrite app_assoc. reflexivity.
Qed.

Lemma scan_loop_suffix (fuel : nat) :
  ∀ count f rest,
  scan_loop max_atom_size allow_backrefs fuel count f = Some (Ok rest) → ∃ span, f = span ++ rest.
Proof.
  induction fuel as [| fuel IH]; intros count f rest H; [discriminate |].
  cbn [scan_loop] in H. destruct count as [| count].
  { injection H as <-. exists []. reflexivity. }
  destruct f as [| b f1]; [discriminate |].
  destruct (byte_to_Z b =? 255).
  { apply IH in H as [span ->]. exists (b :: span). reflexivity. }
  destruct (allow_backrefs && (byte_to_Z b =? 254)).
  - destruct f1 as [| b1 f2]; [discriminate |].
    destruct (_atom_from_stream max_atom_size f2 b1) as [[payload f3] |] eqn:E; [| discriminate].
    apply atom_from_stream_suffix in E as [p ->]. apply IH in H as [span ->].
    exists (b :: b1 :: p ++ span). cbn [app]. rewrite app_assoc. reflexivity.
  - destruct (_atom_from_stream max_atom_size f1 b) as [[a f2] |] eqn:E; [| discriminate].
    apply atom_from_stream_suffix in E as [p ->]. apply IH in H as [span ->].
    exists (b :: p ++ span). cbn [app]. rewrite app_assoc. reflexivity.
Qed.
Lemma atom_from_stream_length (f : bytes) (b0 : byte) (a f' : bytes) :
  _atom_from_stream max_atom_size f b0 = Ok (a, f') → (length f' ≤ length f)%nat.
Proof.
  intros H. apply atom_from_stream_suffix in H as [p ->]. rewrite length_app. lia.
Qed.

(** The fuel of [sexp_from_stream] is enough: a loop that starts with more
    fuel than the stream has bytes is not cut short. *)
Lemma decode_loop_total (fuel : nat) :
  ∀ stack offsets pos f, (length f < fuel)%nat →
  decode_loop max_atom_size allow_backrefs fuel stack offsets pos f ≠ None.
Proof.
  induction fuel as [| fuel IH]; intros stack offsets pos f Hfuel; [lia |].
  cbn [decode_loop]. unfold read_token.
  destruct f as [| b f1]; [discriminate |]. cbn [length] in Hfuel.
  destruct (byte_to_Z b =? 255); [apply IH; lia |].
  destruct (allow_backrefs && (byte_to_Z b =? 254)).
  - destruct f1 as [| b1 f2]; [discriminate |]. cbn [length] in Hfuel.
    destruct (_atom_from_stream max_atom_size f2 b1) as [[payload f3] |] eqn:E; [| discriminate].
    apply atom_from_stream_length in E. cbn [mbind result_bind].
    destruct (offsets !! (pos - from_be payload)) as [v0 |]; [| discriminate].
    destruct (resolve allow_backrefs v0 stack offsets) as [[r | stack'] offsets''];
      [discriminate | apply IH; lia].
  - destruct (_atom_from_stream max_atom_size f1 b) as [[a f2] |] eqn:E; [| discriminate].
    apply atom_from_stream_length in E. cbn [mbind result_bind].
    destruct (resolve allow_backrefs (Atom a) stack _) as [[r | stack'] offsets''];
      [discriminate | apply IH; lia].
Qed.

Lemma sexp_from_stream_total (f : bytes) :
  sexp_from_stream max_atom_size allow_backrefs f ≠ None.
Proof. unfold sexp_from_stream. apply decode_loop_total. lia. Qed.

Lemma scan_loop_total (fuel : nat) :
  ∀ count f, (length f < fuel)%nat →
  scan_loop max_atom_size allow_backrefs fuel count f ≠ None.
Proof.
  induction fuel as [| fuel IH]; intros count f Hfuel; [lia |].
  cbn [scan_loop]. destruct count as [| count]; [discriminate |].
  destruct f as [| b f1]; [discriminate |]. cbn [length] in Hfuel.
  destruct (byte_to_Z b =? 255); [apply IH; lia |].
  destruct (allow_backrefs && (byte_to_Z b =? 254)).
  - destruct f1 as [| b1 f2]; [discriminate |]. cbn [length] in Hfuel.
    destruct (_atom_from_stream max_atom_size f2 b1) as [[payload f3] |] eqn:E; [| discriminate].
    apply atom_from_stream_length in E. apply IH. lia.
  - destruct (_atom_from_stream max_atom_size f1 b) as [[a f2] |] eqn:E; [| discriminate].
    apply atom_from_stream_length in E. apply IH. lia.
Qed.

Lemma sexp_buffer_from_stream_total (f : bytes) :
  sexp_buffer_from_stream max_atom_size allow_backrefs f ≠ None.
Proof.
  unfold sexp_buffer_from_stream.
  pose proof (scan_loop_total (S (S (length f))) 1 f ltac:(lia)) as H.
  destruct (scan_loop _ _ _ _ _) as [[f' | e] |]; congruence.
Qed.
End Scanner.

Lemma scan_loop_span (max_atom_size : Z) (allow_backrefs : bool) (f rest : bytes) :
  Serialize.scan_loop max_atom_size allow_backrefs (S (S (length f))) 1 f = Some (Ok rest) →
  ∃ span, Serialize.sexp_buffer_from_stream max_atom_size allow_backrefs f = Some (Ok span)
          ∧ f = span ++ rest.
Proof.
  intros H. destruct (scan_loop_suffix _ _ _ _ _ _ H) as [span Hf].
  exists span. split; [| exact Hf].
  unfold Serialize.sexp_buffer_from_stream. rewrite H. do 2 f_equal.
  rewrite Hf at 2. apply take_app_length'. rewrite Hf, length_app. lia.
Qed.

(** C8: whenever the tree decoder reads one value from a stream and leaves
    [rest], the buffer scanner, in the same mode, returns a span of the
    stream, and the stream is that span followed by [rest]: the span is the
    prefix the decoder consumed. *)
Theorem scanner_span_is_decoded_prefix (max_atom_size : Z) (allow_backrefs : bool)
  (f : bytes) (v : Serialize.Value) (rest : bytes) :
  Serialize.sexp_from_stream max_atom_size allow_backrefs f = Some (Ok (v, rest)) →
  ∃ span, Serialize.sexp_buffer_from_stream max_atom_size allow_backrefs f = Some (Ok span)
          ∧ f = span ++ rest.
Proof.
  intros H. unfold Serialize.sexp_from_stream in H.
  apply scan_loop_follows_decode_loop in H.
  cbn [Serialize.values_to_read] in H.
  apply scan_loop_span. exact H.
Qed.

Lemma scanner_span_is_decoded_prefix_witness :
  let f := [xff; x80; x82; x61; x62; x01; x02]%byte in
  Serialize.sexp_buffer_from_stream Serialize.reference_max_atom_size false f
    = Some (Ok [xff; x80; x82; x61; x62]%byte).
Proof.
  intros f.
  destruct (scanner_span_is_decoded_prefix Serialize.reference_max_atom_size false f
              (Serialize.Pair (Serialize.Atom []) (Serialize.Atom [x61; x62]%byte))
              [x01; x02]%byte) as (span & Hs & Hf).
  - vm_compute. reflexivity.
  - rewrite Hs. do 2 f_equal.
    change f with ([xff; x80; x82; x61; x62]%byte ++ [x01; x02]%byte) in Hf.
    apply app_inv_tail in Hf. congruence.
Defined.

(** The scanner on an encoding followed by trailing bytes: it returns the
    encoding, and the decoder leaves the trailing bytes. *)
Corollary scanner_returns_encoding (max_atom_size : Z) (v : Serialize.Value) (b trailing : bytes) :
  Serialize.sexp_to_bytes max_atom_size v = Ok b →
  Serialize.sexp_from_stream max_atom_size false (b ++ trailing) = Some (Ok (v, trailing))
  ∧ Serialize.sexp_buffer_from_stream max_atom_size false (b ++ trailing) = Some (Ok b).
Proof.
  intros Hb.
  assert (Serialize.sexp_from_stream max_atom_size false (b ++ trailing)
          = Some (Ok (v, trailing))) as Hd.
  { unfold Serialize.sexp_from_stream.
    destruct (decode_loop_encoded max_atom_size v b Hb (S (length (b ++ trailing))) [] ∅ 0 trailing)
      as (fuel' & _ & H); [lia |].
    rewrite H. reflexivity. }
  split; [exact Hd |].
  unfold Serialize.sexp_from_stream in Hd.
  apply scan_loop_follows_decode_loop in Hd. cbn [Serialize.values_to_read] in Hd.
  destruct (scan_loop_span _ _ _ _ Hd) as (span & Hs & Hf).
  apply app_inv_tail in Hf. subst span. exact Hs.
Qed.

(** * Further properties of the value model *)

Section Conversion.
Import BaseSExp SExpMethods.
Variable class_ : sexp_class.

Lemma pyobj_nested_ind (P : pyobj → Prop) :
  P PyNone → (∀ b, P (PyBytes b)) → (∀ n, P (PyInt n)) →
  (∀ items, Forall P items → P (PyTuple items)) →
  (∀ items, Forall P items → P (PyList items)) →
  (∀ s, P (PySExp s)) → ∀ v, P v.
Proof.
  intros HN HB HI HT HL HS. fix IH 1.
  intros [| b | n | items | items | s];
    [apply HN | apply HB | apply HI | | | apply HS].
  - apply HT. induction items as [| x items IHitems]; constructor; [apply IH | exact IHitems].
  - apply HL. induction items as [| x items IHitems]; constructor; [apply IH | exact IHitems].
Qed.

(** The step of the loop of [to] over the reversed items of a list. *)
Lemma to_list_cons (x : pyobj) (items : list pyobj) :
  to class_ (PyList (x :: items))
  = (r ← to class_ (PyList items); s ← to class_ x; Ok (cons s r)).
Proof. reflexivity. Qed.

Lemma to_list_nil : to class_ (PyList []) = Ok (null class_).
Proof. reflexivity. Qed.

Lemma to_list_converted (items : list pyobj) (ss : list SExp) :
  Forall2 (fun x s => to class_ x = Ok s) items ss →
  to class_ (PyList items) = Ok (fold_right cons (null class_) ss).
Proof.
  induction 1 as [| x s items ss Hx _ IH]; [reflexivity |].
  rewrite to_list_cons, IH. cbn [mbind result_bind]. rewrite Hx. reflexivity.
Qed.

Lemma to_list_ok (items : list pyobj) (r : SExp) :
  to class_ (PyList items) = Ok r →
  ∃ ss, Forall2 (fun x s => to class_ x = Ok s) items ss.
Proof.
  revert r. induction items as [| x items IH]; intros r H.
  - exists []. constructor.
  - rewrite to_list_cons in H.
    destruct (to class_ (PyList items)) as [r' |] eqn:Er; [| discriminate].
    cbn [mbind result_bind] in H.
    destruct (to class_ x) as [s |] eqn:Ex; [| discriminate].
    destruct (IH r' eq_refl) as [ss Hss]. exists (s :: ss). constructor; assumption.
Qed.

Lemma to_castable_iff (v : pyobj) : (∃ s, to class_ v = Ok s) ↔ castable v = true.
Proof.
  induction v as [| b | n | items IH | items IH | s] using pyobj_nested_ind;
    cbn [castable]; try (split; [reflexivity | intros _; eexists; reflexivity]).
  - split; [intros [s H]; discriminate | discriminate].
  - destruct items as [| v0 [| v1 [| v2 items]]];
      try (split; [intros [s H]; discriminate | discriminate]).
    apply Forall_cons in IH as [IH0 IH]. apply Forall_cons in IH as [IH1 _].
    rewrite andb_true_iff, <- IH0, <- IH1. cbn [to]. split.
    + intros [s H]. destruct (to class_ v0) as [a |]; [| discriminate].
      destruct (to class_ v1) as [b |]; [| discriminate]. eauto.
    + intros [[a ->] [b ->]]. eexists. reflexivity.
  - induction items as [| x items IHitems].
    + split; [reflexivity | intros _; eexists; reflexivity].
    + apply Forall_cons in IH as [IHx IH]. specialize (IHitems IH).
      cbn [forallb]. rewrite andb_true_iff, <- IHx, <- IHitems, to_list_cons. split.
      * intros [s H]. destruct (to class_ (PyList items)) as [r |]; [| discriminate].
        cbn [mbind result_bind] in H. destruct (to class_ x) as [a |]; [| discriminate]. eauto.
      * intros [[a ->] [r ->]]. eexists. reflexivity.
Qed.

Lemma to_errors (v : pyobj) (e : exn) :
  to class_ v = Err e → e = AssertionError ∨ e = ValueError "can't cast".
Proof.
  revert e.
  induction v as [| b | n | items IH | items IH | s] using pyobj_nested_ind; intros e;
    cbn [to]; try discriminate.
  - intros [= <-]. auto.
  - destruct items as [| v0 [| v1 [| v2 items]]]; try (intros [= <-]; auto).
    apply Forall_cons in IH as [IH0 IH]. apply Forall_cons in IH as [IH1 _].
    destruct (to class_ v0) as [a |] eqn:E0; [| intros [= <-]; eauto].
    cbn [mbind result_bind].
    destruct (to class_ v1) as [b |] eqn:E1; [discriminate | intros [= <-]; eauto].
  - induction items as [| x items IHitems]; [discriminate |].
    apply Forall_cons in IH as [IHx IH]. specialize (IHitems IH).
    change (fold_right _ _ (x :: items)) with (to class_ (PyList (x :: items))).
    rewrite to_list_cons.
    destruct (to class_ (PyList items)) as [r |] eqn:Er; [| intros [= <-]; apply IHitems; exact Er].
    cbn [mbind result_bind].
    destruct (to class_ x) as [a |] eqn:Ex; [discriminate | intros [= <-]; eauto].
Qed.

Lemma to_list_error_kept (pre : list pyobj) (e : exn) (items : list pyobj) :
  to class_ (PyList items) = Err e → to class_ (PyList (pre ++ items)) = Err e.
Proof.
  intros H. induction pre as [| y pre IH]; [exact H |].
  cbn [app]. rewrite to_list_cons, IH. reflexivity.
Qed.

Lemma SExp_tuple_not_self (x y : SExp) : x ≠ SExp_tuple x y ∧ y ≠ SExp_tuple x y.
Proof.
  split; intros H; apply (f_equal SExp_size) in H; cbn [SExp_size] in H; lia.
Qed.
End Conversion.

(** X1: [to] turns a list into the right-nested pairs of its converted
    items, ended by the null value of the class. *)
Theorem to_list_is_null_terminated (class_ : BaseSExp.sexp_class)
  (items : list BaseSExp.pyobj) (ss : list BaseSExp.SExp) :
  Forall2 (fun x s => BaseSExp.to class_ x = Ok s) items ss →
  BaseSExp.to class_ (BaseSExp.PyList items)
  = Ok (fold_right BaseSExp.cons (BaseSExp.null class_) ss)
  ∧ (∀ x s items' ss', items = x :: items' → ss = s :: ss' →
       ∃ r, BaseSExp.to class_ (BaseSExp.PyList items') = Ok r
            ∧ BaseSExp.to class_ (BaseSExp.PyList items) = Ok (BaseSExp.cons s r)).
Proof.
  intros H. split; [apply to_list_converted; exact H |].
  intros x s items' ss' -> ->. apply Forall2_cons in H as [Hx H].
  exists (fold_right BaseSExp.cons (BaseSExp.null class_) ss').
  split; [apply to_list_converted; exact H |].
  rewrite to_list_cons, (to_list_converted class_ _ _ H). cbn [mbind result_bind].
  rewrite Hx. reflexivity.
Qed.

Lemma to_list_is_null_terminated_witness :
  BaseSExp.to BaseSExp.default_class
    (BaseSExp.PyList [BaseSExp.PyBytes [x01%byte]; BaseSExp.PyNone])
  = Ok (BaseSExp.SExp_tuple (BaseSExp.SExp_atom [x01%byte])
          (BaseSExp.SExp_tuple BaseSExp.SExp_None BaseSExp.SExp_None)).
Proof.
  apply (to_list_is_null_terminated BaseSExp.default_class
           [BaseSExp.PyBytes [x01%byte]; BaseSExp.PyNone]
           [BaseSExp.SExp_atom [x01%byte]; BaseSExp.SExp_None]).
  repeat constructor.
Defined.


(** X3: [to] converts the items of a list from the last to the first, so
    the error raised for a list is that of its last item that fails, whatever
    precedes it. *)
Theorem to_list_raises_last_error (class_ : BaseSExp.sexp_class)
  (pre : list BaseSExp.pyobj) (x : BaseSExp.pyobj) (post : list BaseSExp.pyobj)
  (e : BaseSExp.exn) :
  BaseSExp.to class_ x = Err e →
  forallb SExpMethods.castable post = true →
  BaseSExp.to class_ (BaseSExp.PyList (pre ++ x :: post)) = Err e.
Proof.
  intros Hx Hpost. apply to_list_error_kept. rewrite to_list_cons.
  destruct (proj2 (to_castable_iff class_ (BaseSExp.PyList post)) Hpost) as [r ->].
  cbn [mbind result_bind]. rewrite Hx. reflexivity.
Qed.

Lemma to_list_raises_last_error_witness :
  BaseSExp.to BaseSExp.default_class
    (BaseSExp.PyList [BaseSExp.PyInt 1; BaseSExp.PyTuple []; BaseSExp.PyNone])
  = Err BaseSExp.AssertionError.
Proof.
  apply (to_list_raises_last_error BaseSExp.default_class
           [BaseSExp.PyInt 1] (BaseSExp.PyTuple []) [BaseSExp.PyNone]).
  - reflexivity.
  - reflexivity.
Defined.

(** X4: a tuple [(a, b)] and a list [[a, b]] never convert to equal values:
    the tuple becomes the pair of [a] and [b], the list a pair whose rest is
    again a pair. *)
Theorem to_tuple_differs_from_list (class_ : BaseSExp.sexp_class)
  (a b : BaseSExp.pyobj) (s1 s2 : BaseSExp.SExp) :
  BaseSExp.to class_ (BaseSExp.PyTuple [a; b]) = Ok s1 →
  BaseSExp.to class_ (BaseSExp.PyList [a; b]) = Ok s2 →
  BaseSExp.v_eq s1 s2 = false
  ∧ BaseSExp.__eq__ class_ s1 (BaseSExp.PyList [a; b]) = Ok false.
Proof.
  intros H1 H2.
  assert (BaseSExp.v_eq s1 s2 = false) as Hne.
  { rewrite !to_list_cons, to_list_nil in H2. cbn [BaseSExp.to] in H1.
    cbn [mbind result_bind] in H1, H2.
    destruct (BaseSExp.to class_ b) as [sb |]; [| discriminate].
    cbn [mbind result_bind] in H2.
    destruct (BaseSExp.to class_ a) as [sa |]; [| discriminate].
    cbn [mbind result_bind] in H1, H2. injection H1 as <-. injection H2 as <-.
    destruct (BaseSExp.v_eq _ _) eqn:E; [| reflexivity].
    apply v_eq_spec in E. injection E as E.
    destruct (SExp_tuple_not_self sb (BaseSExp.null class_)) as [Hn _]. contradiction. }
  split; [exact Hne |].
  unfold BaseSExp.__eq__. rewrite H2. f_equal.
  destruct (BaseSExp.v_eq s2 s1) eqn:E; [| reflexivity].
  apply v_eq_spec in E. subst s2.
  rewrite (proj2 (v_eq_spec s1 s1) eq_refl) in Hne. discriminate.
Qed.

Lemma to_tuple_differs_from_list_witness :
  BaseSExp.v_eq
    (BaseSExp.SExp_tuple (BaseSExp.SExp_atom [x01%byte]) (BaseSExp.SExp_atom [x02%byte]))
    (BaseSExp.SExp_tuple (BaseSExp.SExp_atom [x01%byte])
       (BaseSExp.SExp_tuple (BaseSExp.SExp_atom [x02%byte]) BaseSExp.SExp_None))
  = false.
Proof.
  apply (to_tuple_differs_from_list BaseSExp.default_class
           (BaseSExp.PyBytes [x01%byte]) (BaseSExp.PyBytes [x02%byte])).
  - reflexivity.
  - reflexivity.
Defined.

(** X5: [self == other] is true exactly when [other] converts to [self]. A
    native value that cannot be cast compares unequal, its [ValueError]
    caught; the [AssertionError] of a tuple of the wrong length is not caught
    and is raised by the comparison. *)
Theorem eq_native_value (class_ : BaseSExp.sexp_class) (self : BaseSExp.SExp)
  (other : BaseSExp.pyobj) :
  (BaseSExp.__eq__ class_ self other = Ok true ↔ BaseSExp.to class_ other = Ok self)
  ∧ (∀ msg, BaseSExp.__eq__ class_ self other ≠ Err (BaseSExp.ValueError msg))
  ∧ (∀ e, BaseSExp.__eq__ class_ self other = Err e ↔
          e = BaseSExp.AssertionError ∧ BaseSExp.to class_ other = Err e)
  ∧ (∀ msg, BaseSExp.to class_ other = Err (BaseSExp.ValueError msg) →
            BaseSExp.__eq__ class_ self other = Ok false).
Proof.
  unfold BaseSExp.__eq__.
  destruct (BaseSExp.to class_ other) as [o | e0] eqn:Eo.
  - repeat split; try discriminate; try (intros []; discriminate).
    + intros [= H]. apply v_eq_spec in H. congruence.
    + intros [= ->]. f_equal. apply v_eq_spec. reflexivity.
  - pose proof (to_errors class_ other e0 Eo) as [-> | ->].
    + repeat split; try discriminate; try congruence.
      intros []. congruence.
    + repeat split; try discriminate; try congruence.
      intros []. congruence.
Qed.

(** X6: between instances, [==] is reflexive, symmetric and transitive, and
    holds exactly of structurally identical values. *)
Theorem eq_instances_equivalence (class_ : BaseSExp.sexp_class) (a b c : BaseSExp.SExp) :
  BaseSExp.__eq__ class_ a (BaseSExp.PySExp a) = Ok true
  ∧ BaseSExp.__eq__ class_ a (BaseSExp.PySExp b) = BaseSExp.__eq__ class_ b (BaseSExp.PySExp a)
  ∧ (BaseSExp.__eq__ class_ a (BaseSExp.PySExp b) = Ok true →
     BaseSExp.__eq__ class_ b (BaseSExp.PySExp c) = Ok true →
     BaseSExp.__eq__ class_ a (BaseSExp.PySExp c) = Ok true)
  ∧ (BaseSExp.__eq__ class_ a (BaseSExp.PySExp b) = Ok true ↔ a = b).
Proof.
  assert (∀ x y, BaseSExp.__eq__ class_ x (BaseSExp.PySExp y) = Ok true ↔ x = y) as Hspec.
  { intros x y. unfold BaseSExp.__eq__. cbn [BaseSExp.to]. split.
    - intros [= H]. apply v_eq_spec in H. congruence.
    - intros ->. f_equal. apply v_eq_spec. reflexivity. }
  split; [apply Hspec; reflexivity |]. split.
  { unfold BaseSExp.__eq__. cbn [BaseSExp.to]. f_equal.
    destruct (BaseSExp.v_eq b a) eqn:E1, (BaseSExp.v_eq a b) eqn:E2; try reflexivity.
    - apply v_eq_spec in E1. subst. rewrite (proj2 (v_eq_spec a a) eq_refl) in E2. discriminate.
    - apply v_eq_spec in E2. subst. rewrite (proj2 (v_eq_spec b b) eq_refl) in E1. discriminate. }
  split; [| apply Hspec].
  intros H1 H2. apply Hspec in H1, H2. apply Hspec. congruence.
Qed.

Section Iteration.
Import BaseSExp SExpMethods.
Variable class_ : sexp_class.

Lemma nullp_v_eq (self : SExp) : nullp class_ self = Ok (v_eq (__null__ class_) self).
Proof. reflexivity. Qed.

(** [as_iter] in the shape of its source: return on a null value, assert
    [listp], yield [first], go on with [rest]. *)
Lemma as_iter_body (self : SExp) :
  as_iter class_ self
  = match nullp class_ self with
    | Err e => ([], Some e)
    | Ok true => ([], None)
    | Ok false =>
        if listp self then
          match first self with
          | Err e => ([], Some e)
          | Ok x =>
              match rest self with
              | Err e => ([x], Some e)
              | Ok r => let '(items, raised) := as_iter class_ r in (x :: items, raised)
              end
          end
        else ([], Some AssertionError)
    end.
Proof. destruct self; reflexivity. Qed.

Lemma as_iter_of_list (items : list SExp) :
  (∀ x y, __null__ class_ ≠ SExp_tuple x y) →
  as_iter class_ (fold_right cons (null class_) items) = (items, None).
Proof.
  intros Hnull. induction items as [| x items IH]; cbn [fold_right].
  - rewrite as_iter_body, nullp_v_eq. unfold null.
    rewrite (proj2 (v_eq_spec _ _) eq_refl). reflexivity.
  - unfold cons at 1. cbn [as_iter]. rewrite nullp_v_eq.
    destruct (v_eq (__null__ class_) (SExp_tuple x _)) eqn:E.
    + apply v_eq_spec in E. exfalso. eapply Hnull, E.
    + rewrite IH. reflexivity.
Qed.
End Iteration.

(** X7: the items [as_iter] yields are the firsts along the spine of the
    value: the value is those items consed onto a tail. The generator ends
    without an exception exactly when that tail is the null value; it ends
    with [AssertionError] when the tail is another atom, and with the
    [EvalError] of [first] when the tail holds [None] and is not null. *)
Theorem as_iter_decomposes (class_ : BaseSExp.sexp_class) (self : BaseSExp.SExp) :
  ∃ tail,
    self = fold_right BaseSExp.cons tail (SExpMethods.as_iter class_ self).1
    ∧ match (SExpMethods.as_iter class_ self).2 with
      | None => tail = BaseSExp.__null__ class_
      | Some e =>
          tail ≠ BaseSExp.__null__ class_
          ∧ ((e = BaseSExp.AssertionError ∧ ∃ b, tail = BaseSExp.SExp_atom b)
             ∨ (e = BaseSExp.EvalError "first of non-cons" tail
                ∧ tail = BaseSExp.SExp_None))
      end.
Proof.
  induction self as [| b | v0 _ v1 IH]; cbn [SExpMethods.as_iter]; rewrite nullp_v_eq.
  - destruct (BaseSExp.v_eq _ _) eqn:E; exists BaseSExp.SExp_None; cbn.
    + apply v_eq_spec in E. auto.
    + split; [reflexivity |]. split; [| auto].
      intros H. rewrite <- H, (proj2 (v_eq_spec _ _) eq_refl) in E. discriminate.
  - destruct (BaseSExp.v_eq _ _) eqn:E; exists (BaseSExp.SExp_atom b); cbn.
    + apply v_eq_spec in E. auto.
    + split; [reflexivity |]. split; [| eauto].
      intros H. rewrite <- H, (proj2 (v_eq_spec _ _) eq_refl) in E. discriminate.
  - destruct (BaseSExp.v_eq _ _) eqn:E.
    + exists (BaseSExp.SExp_tuple v0 v1). cbn. apply v_eq_spec in E. auto.
    + destruct IH as (tail & Hs & Ht).
      destruct (SExpMethods.as_iter class_ v1) as [items raised]. cbn in *.
      exists tail. split; [| exact Ht]. unfold BaseSExp.cons at 1. congruence.
Qed.

(** X8: a list converted by [to] is iterated back by [as_iter]: the
    generator yields the converted items, in order, and ends without an
    exception. The null value of the class is not a pair. *)
Theorem as_iter_of_converted_list (class_ : BaseSExp.sexp_class)
  (items : list BaseSExp.pyobj) (ss : list BaseSExp.SExp) :
  (∀ x y, BaseSExp.__null__ class_ ≠ BaseSExp.SExp_tuple x y) →
  Forall2 (fun x s => BaseSExp.to class_ x = Ok s) items ss →
  ∃ s, BaseSExp.to class_ (BaseSExp.PyList items) = Ok s
       ∧ SExpMethods.as_iter class_ s = (ss, None).
Proof.
  intros Hnull H. exists (fold_right BaseSExp.cons (BaseSExp.null class_) ss).
  split; [apply to_list_converted; exact H | apply as_iter_of_list; exact Hnull].
Qed.

Lemma as_iter_of_converted_list_witness :
  ∃ s, BaseSExp.to BaseSExp.default_class
         (BaseSExp.PyList [BaseSExp.PyBytes [x01%byte]; BaseSExp.PyList []]) = Ok s
       ∧ SExpMethods.as_iter BaseSExp.default_class s
         = ([BaseSExp.SExp_atom [x01%byte]; BaseSExp.SExp_None], None).
Proof.
  apply (as_iter_of_converted_list BaseSExp.default_class
           [BaseSExp.PyBytes [x01%byte]; BaseSExp.PyList []]
           [BaseSExp.SExp_atom [x01%byte]; BaseSExp.SExp_None]).
  - discriminate.
  - repeat constructor.
Defined.

(** X9: on every value, [as_atom] returns bytes exactly when [listp] is
    false; [first] returns exactly when [rest] does, and then [listp] is
    true; and the only value on which [listp] is true while [first] and
    [rest] raise is the one that holds [None]. *)
Theorem accessors_partition (self : BaseSExp.SExp) :
  (BaseSExp.listp self = false ↔ ∃ b, BaseSExp.as_atom self = Ok b)
  ∧ ((∃ x, BaseSExp.first self = Ok x) ↔ (∃ y, BaseSExp.rest self = Ok y))
  ∧ ((∃ x, BaseSExp.first self = Ok x) → BaseSExp.listp self = true)
  ∧ (BaseSExp.listp self = true ∧ BaseSExp.first self = Err (BaseSExp.EvalError "first of non-cons" self)
     ↔ self = BaseSExp.SExp_None).
Proof.
  destruct self as [| b | v0 v1]; cbn.
  - repeat split; try discriminate; try (intros [? ?]; discriminate).
  - repeat split; try discriminate; try (intros [? ?]; discriminate); eauto.
  - repeat split; try discriminate; try (intros [? ?]; discriminate); eauto.
Qed.

Section OtherClass.
Import BaseSExp SExpMethods.
Variable class_ : sexp_class.

Lemma to_BaseSExp_fixed (v : SExp) :
  to_BaseSExp class_ (null class_) = null class_ →
  to_BaseSExp class_ (to_BaseSExp class_ v) = to_BaseSExp class_ v.
Proof.
  intros Hnull. induction v as [| b | v0 IH0 v1 IH1]; cbn [to_BaseSExp];
    [exact Hnull | reflexivity | congruence].
Qed.

Lemma as_iter_to_BaseSExp (a : bytes) (v : SExp) (items : list SExp) :
  __null__ class_ = SExp_atom a →
  as_iter default_class v = (items, None) →
  as_iter class_ (to_BaseSExp class_ v) = (map (to_BaseSExp class_) items, None).
Proof.
  intros Hnull. revert items.
  induction v as [| b | v0 _ v1 IH]; intros items; cbn [as_iter to_BaseSExp].
  - intros [= <-]. rewrite as_iter_body, nullp_v_eq. unfold null.
    rewrite (proj2 (v_eq_spec _ _) eq_refl). reflexivity.
  - discriminate.
  - rewrite !nullp_v_eq, Hnull. cbn [v_eq default_class subclass_sexp __null__].
    destruct (as_iter default_class v1) as [items1 raised1].
    intros [= <- ->]. rewrite (IH items1 eq_refl). reflexivity.
Qed.
End OtherClass.

(** X10: converting an instance of another subclass with [to] turns every
    [None] it holds into the null value of the class. Into a class whose
    null value is an atom: the result holds no [None], so that [listp] is
    true on it exactly when [first] returns; converting the result again
    changes nothing; and a list that the default class iterates without an
    exception is iterated, converted, to the converted items. *)
Theorem to_other_class_instance (class_ : BaseSExp.sexp_class) (a : bytes)
  (v : BaseSExp.SExp) (items : list BaseSExp.SExp) :
  BaseSExp.__null__ class_ = BaseSExp.SExp_atom a →
  let s := SExpMethods.to_BaseSExp class_ v in
  (BaseSExp.listp s = true ↔ ∃ x, BaseSExp.first s = Ok x)
  ∧ SExpMethods.to_BaseSExp class_ s = s
  ∧ BaseSExp.nullp class_ (SExpMethods.to_BaseSExp class_ (BaseSExp.null BaseSExp.default_class))
    = Ok true
  ∧ (SExpMethods.as_iter BaseSExp.default_class v = (items, None) →
     SExpMethods.as_iter class_ s = (map (SExpMethods.to_BaseSExp class_) items, None)).
Proof.
  intros Hnull s. split; [| split; [| split]].
  - subst s. destruct v as [| b | v0 v1]; cbn [SExpMethods.to_BaseSExp].
    + unfold BaseSExp.null. rewrite Hnull. cbn.
      split; [discriminate | intros [? ?]; discriminate].
    + cbn. split; [discriminate | intros [? ?]; discriminate].
    + cbn. split; eauto.
  - apply to_BaseSExp_fixed. unfold BaseSExp.null. rewrite Hnull. reflexivity.
  - cbn [BaseSExp.null BaseSExp.default_class BaseSExp.subclass_sexp BaseSExp.__null__
         SExpMethods.to_BaseSExp].
    rewrite nullp_v_eq. unfold BaseSExp.null. f_equal. apply v_eq_spec. reflexivity.
  - apply as_iter_to_BaseSExp with (a := a). exact Hnull.
Qed.

Lemma to_other_class_instance_witness :
  SExpMethods.as_iter BaseSExp.empty_atom_class
    (SExpMethods.to_BaseSExp BaseSExp.empty_atom_class
       (BaseSExp.SExp_tuple (BaseSExp.SExp_atom [x01%byte]) BaseSExp.SExp_None))
  = ([BaseSExp.SExp_atom [x01%byte]], None).
Proof.
  apply (to_other_class_instance BaseSExp.empty_atom_class []
           (BaseSExp.SExp_tuple (BaseSExp.SExp_atom [x01%byte]) BaseSExp.SExp_None)
           [BaseSExp.SExp_atom [x01%byte]]).
  - reflexivity.
  - reflexivity.
Defined.

(** * Properties of the helpers of the tests *)

Section InfiniteStream.
Import SerializeTest.

Lemma read_loop_spec (buf : bytes) :
  ∀ n ret,
  read_loop buf n ret
  = (ret ++ take (Z.to_nat n) buf,
     n - Z.of_nat (Z.to_nat n `min` length buf),
     drop (Z.to_nat n) buf).
Proof.
  induction buf as [| b buf IH]; intros n ret; cbn [read_loop].
  - rewrite take_nil, drop_nil, app_nil_r, Nat.min_0_r. do 2 f_equal. cbn. lia.
  - destruct (Z.ltb_spec 0 n) as [Hn | Hn].
    + rewrite IH. replace (Z.to_nat n) with (S (Z.to_nat (n - 1))) by lia.
      cbn [take drop length]. rewrite <- app_assoc. cbn [app].
      do 2 f_equal. lia.
    + replace (Z.to_nat n) with 0%nat by lia.
      cbn [take drop]. rewrite app_nil_r. do 2 f_equal. cbn. lia.
Qed.

Lemma InfiniteStream_read_spec (buf : bytes) (n : Z) :
  InfiniteStream_read buf n
  = (take (Z.to_nat n) buf ++ replicate (Z.to_nat n - length buf) x20%byte,
     drop (Z.to_nat n) buf).
Proof.
  unfold InfiniteStream_read. rewrite read_loop_spec. cbn [app]. do 3 f_equal. lia.
Qed.
End InfiniteStream.

(** X11: [InfiniteStream.read(n)] never returns short: it returns exactly
    [n] bytes (none for [n <= 0]), the first [n] bytes of the buffer followed
    by spaces without end, and leaves the buffer without its first [n]
    bytes. *)
Theorem InfiniteStream_read_is_never_short (buf : bytes) (n : Z) :
  let '(ret, buf') := SerializeTest.InfiniteStream_read buf n in
  length ret = Z.to_nat n
  ∧ ret = take (Z.to_nat n) (buf ++ replicate (Z.to_nat n) x20%byte)
  ∧ buf' = drop (Z.to_nat n) buf.
Proof.
  rewrite InfiniteStream_read_spec. split; [| split; [| reflexivity]].
  - rewrite length_app, length_take, length_replicate. lia.
  - rewrite take_app. f_equal. rewrite take_replicate. f_equal. lia.
Qed.

(** X12: two reads from an [InfiniteStream] return, one after the other,
    what one read of their total returns, and leave the same buffer. *)
Theorem InfiniteStream_reads_compose (buf : bytes) (n m : Z) :
  0 ≤ n → 0 ≤ m →
  let '(ret1, buf1) := SerializeTest.InfiniteStream_read buf n in
  let '(ret2, buf2) := SerializeTest.InfiniteStream_read buf1 m in
  SerializeTest.InfiniteStream_read buf (n + m) = (ret1 ++ ret2, buf2).
Proof.
  intros Hn Hm. rewrite !InfiniteStream_read_spec.
  rewrite Z2Nat.inj_add by lia. set (i := Z.to_nat n). set (j := Z.to_nat m).
  rewrite drop_drop, length_drop. f_equal.
  destruct (Nat.le_gt_cases i (length buf)) as [Hi | Hi].
  - replace (i - length buf)%nat with 0%nat by lia. cbn [replicate]. rewrite app_nil_r.
    rewrite app_assoc, take_take_drop. do 2 f_equal. lia.
  - rewrite (take_ge buf i), (take_ge buf (i + j)), (drop_ge buf i) by lia.
    rewrite take_nil. cbn [app]. rewrite <- app_assoc. f_equal.
    rewrite <- replicate_add. f_equal. lia.
Qed.

Lemma InfiniteStream_reads_compose_witness :
  SerializeTest.InfiniteStream_read [xfe; xff; xff]%byte (2 + 3)
  = ([xfe; xff]%byte ++ [xff; x20; x20]%byte, []).
Proof.
  apply (InfiniteStream_reads_compose [xfe; xff; xff]%byte 2 3); lia.
Defined.

Section HasBackrefsAnyReader.
Import Serialize SerializeTest.
Variable atom_from_stream : bytes → byte → result error (bytes * bytes).
Hypothesis atom_from_stream_consumes :
  ∀ f b a f', atom_from_stream f b = Ok (a, f') → ∃ p, f = p ++ f'.

Lemma has_backrefs_loop_total (fuel : nat) :
  ∀ count f, (length f < fuel)%nat →
  has_backrefs_loop atom_from_stream fuel count f ≠ None.
Proof.
  induction fuel as [| fuel IH]; intros count f Hfuel; [lia |].
  cbn [has_backrefs_loop]. destruct count as [| count]; [discriminate |].
  destruct f as [| b f1]; [discriminate |]. cbn [length] in Hfuel.
  destruct (byte_to_Z b =? 254); [discriminate |].
  destruct (byte_to_Z b =? 255); [apply IH; lia |].
  destruct (atom_from_stream f1 b) as [[a f2] |] eqn:E; [| discriminate].
  apply atom_from_stream_consumes in E as [p ->]. apply IH.
  rewrite length_app in Hfuel. lia.
Qed.

Lemma has_backrefs_loop_true (fuel : nat) :
  ∀ count f,
  has_backrefs_loop atom_from_stream fuel count f = Some (Ok true) → In xfe%byte f.
Proof.
  induction fuel as [| fuel IH]; intros count f H; [discriminate |].
  cbn [has_backrefs_loop] in H. destruct count as [| count]; [discriminate |].
  destruct f as [| b f1]; [discriminate |].
  destruct (Z.eqb_spec (byte_to_Z b) 254) as [Hb | _].
  { left. rewrite <- (byte_of_to_Z b), Hb. reflexivity. }
  destruct (byte_to_Z b =? 255); [right; eapply IH, H |].
  destruct (atom_from_stream f1 b) as [[a f2] |] eqn:E; [| discriminate].
  apply atom_from_stream_consumes in E as [p ->]. apply IH in H.
  right. apply in_app_iff. auto.
Qed.
End HasBackrefsAnyReader.

(** X13: [has_backrefs], with any atom reader that consumes a prefix of the
    stream it is given, always returns or raises within its loop bound, and
    returns [True] only on a blob that holds the byte [0xFE]. *)
Theorem has_backrefs_true_needs_marker
  (atom_from_stream : bytes → byte → result Serialize.error (bytes * bytes)) (blob : bytes) :
  (∀ f b a f', atom_from_stream f b = Ok (a, f') → ∃ p, f = p ++ f') →
  SerializeTest.has_backrefs atom_from_stream blob ≠ None
  ∧ (SerializeTest.has_backrefs atom_from_stream blob = Some (Ok true) → In xfe%byte blob).
Proof.
  intros Hreader. unfold SerializeTest.has_backrefs. split.
  - apply has_backrefs_loop_total; [exact Hreader | lia].
  - apply has_backrefs_loop_true. exact Hreader.
Qed.

Lemma has_backrefs_true_needs_marker_witness :
  SerializeTest.has_backrefs (Serialize._atom_from_stream Serialize.reference_max_atom_size)
    [xff; x80; xfe; x01]%byte ≠ None
  ∧ (SerializeTest.has_backrefs (Serialize._atom_from_stream Serialize.reference_max_atom_size)
       [xff; x80; xfe; x01]%byte = Some (Ok true)
     → In xfe%byte [xff; x80; xfe; x01]%byte).
Proof.
  apply (has_backrefs_true_needs_marker
           (Serialize._atom_from_stream Serialize.reference_max_atom_size)).
  intros f b a f' H. eapply atom_from_stream_suffix, H.
Defined.

Section HasBackrefsOnEncodings.
Import Serialize SerializeTest.
Variable max_atom_size : Z.
Hypothesis max_below : max_atom_size < 2 ^ 41.

(** [has_backrefs] steps over the uncompressed encoding of a value. *)
Lemma has_backrefs_loop_encoded (v : Value) :
  ∀ b, sexp_to_bytes max_atom_size v = Ok b →
  ∀ fuel count rest, (length (b ++ rest) < fuel)%nat →
  ∃ fuel', (length rest < fuel')%nat
    ∧ has_backrefs_loop (_atom_from_stream max_atom_size) fuel (S count) (b ++ rest)
      = has_backrefs_loop (_atom_from_stream max_atom_size) fuel' count rest.
Proof.
  induction v as [a | vf IHf vr IHr]; intros b Hb fuel count rest Hfuel.
  - cbn [sexp_to_bytes] in Hb. pose proof (atom_encoded_length _ _ _ Hb) as Hlen.
    destruct (atom_roundtrip max_atom_size a b Hb) as (b0 & tl & -> & Hff & Hfe & Hd).
    destruct fuel as [| fuel]; [lia |]. exists fuel.
    cbn [length app] in Hfuel. rewrite length_app in Hfuel. split; [lia |].
    cbn [has_backrefs_loop app].
    destruct (Z.eqb_spec (byte_to_Z b0) 254) as [E | _];
      [exfalso; revert E; apply Hfe; eval_pow; lia |].
    destruct (Z.eqb_spec (byte_to_Z b0) 255); [lia |].
    rewrite Hd. reflexivity.
  - cbn [sexp_to_bytes] in Hb.
    destruct (sexp_to_bytes max_atom_size vf) as [bf |] eqn:Ef; [| discriminate].
    destruct (sexp_to_bytes max_atom_size vr) as [br |] eqn:Er; [| discriminate].
    cbn in Hb. assert (b = xff%byte :: bf ++ br) as -> by congruence. clear Hb.
    destruct fuel as [| fuel]; [lia |].
    cbn [length app] in Hfuel. rewrite <- app_assoc in Hfuel.
    cbn [has_backrefs_loop app]. change (byte_to_Z xff =? 254) with false.
    change (byte_to_Z xff =? 255) with true. cbv iota. rewrite <- app_assoc.
    destruct (IHf bf eq_refl fuel (S count) (br ++ rest)) as (fuel1 & Hfuel1 & ->); [lia |].
    destruct (IHr br eq_refl fuel1 count rest) as (fuel2 & Hfuel2 & ->); [lia |].
    exists fuel2. split; [exact Hfuel2 | reflexivity].
Qed.

(** On a compressed encoding [has_backrefs] meets a marker, unless the
    encoding holds none and is the uncompressed one. *)
Lemma has_backrefs_loop_compressed (o : Obj) :
  ∀ seen pos b seen',
  sexp_to_bytes_backrefs max_atom_size o seen pos = Ok (b, seen') →
  sexp_to_bytes max_atom_size (value_of o) = Ok b
  ∨ ∀ fuel count rest, (length (b ++ rest) < fuel)%nat →
      has_backrefs_loop (_atom_from_stream max_atom_size) fuel (S count) (b ++ rest)
      = Some (Ok true).
Proof.
  induction o as [i a | i f IHf r IHr]; intros seen pos b seen' Henc;
    cbn [sexp_to_bytes_backrefs oid] in Henc;
    destruct (seen !! i) as [off |] eqn:Es.
  - destruct (backref_payload max_atom_size (pos - off)) as [p |] eqn:Ep; [| discriminate].
    cbn in Henc. assert (b = xfe%byte :: p) as -> by congruence.
    right. intros fuel count rest Hfuel. destruct fuel as [| fuel]; [lia |]. reflexivity.
  - destruct (atom_to_byte_iterator max_atom_size a) as [bs |] eqn:Ea; [| discriminate].
    cbn in Henc. left. cbn [value_of sexp_to_bytes]. congruence.
  - destruct (backref_payload max_atom_size (pos - off)) as [p |] eqn:Ep; [| discriminate].
    cbn in Henc. assert (b = xfe%byte :: p) as -> by congruence.
    right. intros fuel count rest Hfuel. destruct fuel as [| fuel]; [lia |]. reflexivity.
  - destruct (sexp_to_bytes_backrefs max_atom_size f (<[i := pos]> seen) (pos + 1))
      as [[bf seen2] |] eqn:Ef; [| discriminate].
    cbn [mbind result_bind] in Henc.
    destruct (sexp_to_bytes_backrefs max_atom_size r seen2 (pos + 1 + Z.of_nat (length bf)))
      as [[br seen3] |] eqn:Er; [| discriminate].
    cbn in Henc. assert (b = xff%byte :: bf ++ br) as -> by congruence. clear Henc.
    assert (∀ fuel count rest,
      has_backrefs_loop (_atom_from_stream max_atom_size) (S fuel) (S count)
        ((xff%byte :: bf ++ br) ++ rest)
      = has_backrefs_loop (_atom_from_stream max_atom_size) fuel (S (S count))
          (bf ++ br ++ rest)) as Hstep.
    { intros fuel count rest. cbn [has_backrefs_loop app].
      change (byte_to_Z xff =? 254) with false. change (byte_to_Z xff =? 255) with true.
      cbv iota. rewrite <- app_assoc. reflexivity. }
    destruct (IHf _ _ _ _ Ef) as [Hf | Hf].
    + destruct (IHr _ _ _ _ Er) as [Hr | Hr].
      * left. cbn [value_of sexp_to_bytes]. rewrite Hf, Hr. reflexivity.
      * right. intros fuel count rest Hfuel. destruct fuel as [| fuel]; [lia |].
        rewrite Hstep. cbn [length app] in Hfuel. rewrite <- app_assoc in Hfuel.
        destruct (has_backrefs_loop_encoded _ bf Hf fuel (S count) (br ++ rest))
          as (fuel1 & Hfuel1 & ->); [lia |].
        apply Hr. exact Hfuel1.
    + right. intros fuel count rest Hfuel. destruct fuel as [| fuel]; [lia |].
      rewrite Hstep. cbn [length app] in Hfuel. rewrite <- app_assoc in Hfuel.
      apply Hf. lia.
Qed.
End HasBackrefsOnEncodings.

(** X14: on the encodings of one value, [has_backrefs], with the atom
    reader of the serializer, is [False] on the uncompressed encoding, and on
    the compressed encoding it is [True] exactly when that encoding differs
    from the uncompressed one. The maximum atom length is below [2^41]. *)
Theorem has_backrefs_on_encodings (max_atom_size : Z) (o : Serialize.Obj) (b b2 : bytes) :
  max_atom_size < 2 ^ 41 →
  Serialize.as_bin max_atom_size false o = Ok b →
  Serialize.as_bin max_atom_size true o = Ok b2 →
  SerializeTest.has_backrefs (Serialize._atom_from_stream max_atom_size) b = Some (Ok false)
  ∧ (SerializeTest.has_backrefs (Serialize._atom_from_stream max_atom_size) b2 = Some (Ok true)
     ↔ b2 ≠ b)
  ∧ (b2 = b →
     SerializeTest.has_backrefs (Serialize._atom_from_stream max_atom_size) b2 = Some (Ok false)).
Proof.
  intros Hmax Hb Hb2. unfold Serialize.as_bin in Hb, Hb2.
  assert (SerializeTest.has_backrefs (Serialize._atom_from_stream max_atom_size) b
          = Some (Ok false)) as Hplain.
  { unfold SerializeTest.has_backrefs.
    destruct (has_backrefs_loop_encoded max_atom_size Hmax _ b Hb (S (S (length b))) 0 [])
      as (fuel' & Hfuel' & H); [rewrite app_nil_r; lia |].
    rewrite app_nil_r in H. rewrite H. destruct fuel' as [| fuel']; [lia | reflexivity]. }
  split; [exact Hplain |].
  destruct (Serialize.sexp_to_bytes_backrefs max_atom_size o ∅ 0) as [[c seen] |] eqn:E;
    [| discriminate].
  cbn in Hb2. assert (c = b2) as -> by congruence.
  split; [| intros ->; exact Hplain].
  split.
  - intros Ht ->. rewrite Hplain in Ht. discriminate.
  - intros Hne.
    destruct (has_backrefs_loop_compressed max_atom_size Hmax o _ _ _ _ E) as [H | H];
      [congruence |].
    unfold SerializeTest.has_backrefs.
    specialize (H (S (S (length b2))) 0%nat []). rewrite app_nil_r in H. apply H. lia.
Qed.

Lemma has_backrefs_on_encodings_witness :
  SerializeTest.has_backrefs (Serialize._atom_from_stream Serialize.reference_max_atom_size)
    [xff; x80; x80]%byte = Some (Ok false)
  ∧ (SerializeTest.has_backrefs (Serialize._atom_from_stream Serialize.reference_max_atom_size)
       [xff; x80; xfe; x01]%byte = Some (Ok true)
     ↔ [xff; x80; xfe; x01]%byte ≠ [xff; x80; x80]%byte).
Proof.
  pose proof (has_backrefs_on_encodings Serialize.reference_max_atom_size
                (Serialize.OPair 1 (Serialize.OAtom 0 []) (Serialize.OAtom 0 []))
                [xff; x80; x80]%byte [xff; x80; xfe; x01]%byte) as H.
  destruct H as (H1 & H2 & _).
  - vm_compute. reflexivity.
  - vm_compute. reflexivity.
  - vm_compute. reflexivity.
  - split; [exact H1 | exact H2].
Defined.

Section MakeBomb.
Import Serialize.
Variable class_ : BaseSExp.sexp_class.
Variable max_atom_size : Z.

(** Each turn of the loop pairs the instance with itself, so the encoding
    of the result is twice that of the tree before, and the pair's byte. *)
Lemma make_bomb_loop_encoding (turns : nat) :
  ∀ (bomb : BaseSExp.pyobj) (s0 : BaseSExp.SExp) (v0 : Value) (b0 : bytes),
    BaseSExp.to class_ bomb = Ok s0 →
    SerializeTest.value_of_SExp s0 = Some v0 →
    sexp_to_bytes max_atom_size v0 = Ok b0 →
    ∃ bomb' s v b,
      SerializeTest.make_bomb_loop class_ turns bomb = Ok bomb'
      ∧ BaseSExp.to class_ bomb' = Ok s
      ∧ SerializeTest.value_of_SExp s = Some v
      ∧ sexp_to_bytes max_atom_size v = Ok b
      ∧ Z.of_nat (length b) + 1 = 2 ^ Z.of_nat turns * (Z.of_nat (length b0) + 1).
Proof.
  induction turns as [| n IH]; intros bomb s0 v0 b0 Hs Hv Hb.
  - exists bomb, s0, v0, b0. repeat split; try assumption. eval_pow. lia.
  - cbn [SerializeTest.make_bomb_loop BaseSExp.to]. rewrite Hs. cbn [mbind result_bind].
    destruct (IH (BaseSExp.PySExp (BaseSExp.SExp_tuple s0 s0)) (BaseSExp.SExp_tuple s0 s0)
                (Pair v0 v0) (xff%byte :: b0 ++ b0)) as (bomb' & s & v & b & H1 & H2 & H3 & H4 & H5).
    + reflexivity.
    + cbn [SerializeTest.value_of_SExp]. rewrite Hv. reflexivity.
    + cbn [sexp_to_bytes]. rewrite Hb. reflexivity.
    + exists bomb', s, v, b. repeat split; try assumption.
      rewrite H5, (Nat2Z.inj_succ n), Z.pow_succ_r by lia. cbn [length]. rewrite length_app.
      replace (Z.of_nat (S (length b0 + length b0)) + 1)
        with (2 * (Z.of_nat (length b0) + 1)) by lia.
      ring.
Qed.

Lemma TEXT_encoding :
  44 ≤ max_atom_size → sexp_to_bytes max_atom_size (Atom TEXT) = Ok (xac%byte :: TEXT).
Proof.
  intros Hmax. cbn [sexp_to_bytes]. unfold atom_to_byte_iterator.
  change (length TEXT) with 44%nat. change TEXT with (x74%byte :: tl TEXT) at 1.
  cbv iota. change (bool_decide (tl TEXT = [])) with false. cbn [andb].
  destruct (Z.ltb_spec max_atom_size (Z.of_nat 44)); [lia |]. reflexivity.
Qed.
End MakeBomb.

(** X18: [make_bomb(depth)] returns, and the uncompressed encoding of the
    instance it builds (of [to_sexp_f(TEXT)] at depth 0) has
    [46 * 2^depth - 1] bytes: 47103 at depth 10 and 48234495 at depth 20, as
    [test_deserialize_bomb] asserts. The size limit admits the 44 bytes of
    [TEXT]. *)
Theorem make_bomb_uncompressed_length (class_ : BaseSExp.sexp_class) (max_atom_size : Z)
  (depth : nat) :
  44 ≤ max_atom_size →
  ∃ bomb s v b,
    SerializeTest.make_bomb class_ depth = Ok bomb
    ∧ BaseSExp.to class_ bomb = Ok s
    ∧ SerializeTest.value_of_SExp s = Some v
    ∧ Serialize.sexp_to_bytes max_atom_size v = Ok b
    ∧ Z.of_nat (length b) = 46 * 2 ^ Z.of_nat depth - 1.
Proof.
  intros Hmax. unfold SerializeTest.make_bomb.
  destruct (make_bomb_loop_encoding class_ max_atom_size depth
              (BaseSExp.PyBytes Serialize.TEXT) (BaseSExp.SExp_atom Serialize.TEXT)
              (Serialize.Atom Serialize.TEXT) (xac%byte :: Serialize.TEXT))
    as (bomb & s & v & b & H1 & H2 & H3 & H4 & H5);
    [reflexivity | reflexivity | apply TEXT_encoding; exact Hmax |].
  exists bomb, s, v, b. repeat split; try assumption.
  change (length (xac%byte :: Serialize.TEXT)) with 45%nat in H5. lia.
Qed.

Lemma make_bomb_uncompressed_length_witness :
  ∃ bomb s v b,
    SerializeTest.make_bomb BaseSExp.default_class 20 = Ok bomb
    ∧ BaseSExp.to BaseSExp.default_class bomb = Ok s
    ∧ SerializeTest.value_of_SExp s = Some v
    ∧ Serialize.sexp_to_bytes Serialize.reference_max_atom_size v = Ok b
    ∧ Z.of_nat (length b) = 48234495.
Proof.
  apply (make_bomb_uncompressed_length BaseSExp.default_class
           Serialize.reference_max_atom_size 20).
  unfold Serialize.reference_max_atom_size. lia.
Defined.

(** * Further properties of the serializer, as the tests exercise it *)

Section TruncatedPrefix.
Import Serialize.
Variable max_atom_size : Z.

Lemma atom_from_stream_truncated_prefix (b0 : byte) (hi k : Z) (payload : bytes) :
  0xC0 ≤ byte_to_Z b0 →
  length_field (byte_to_Z b0) = Some (hi, k) →
  Z.of_nat (length payload) < k →
  byte_to_Z b0 ≠ 0xFF
  ∧ _atom_from_stream max_atom_size payload b0 = Err UnexpectedEndOfInput.
Proof.
  intros Hb Hfield Hlen. split.
  - intros E. rewrite E in Hfield. discriminate.
  - unfold _atom_from_stream.
    destruct (Z.eqb_spec (byte_to_Z b0) 0x80); [lia |].
    destruct (Z.ltb_spec (byte_to_Z b0) 0x80); [lia |].
    destruct (Z.ltb_spec (byte_to_Z b0) 0xC0); [lia |].
    rewrite Hfield, read_short by exact Hlen. reflexivity.
Qed.
End TruncatedPrefix.

(** X15: a stream that ends inside a length prefix is rejected with
    UnexpectedEndOfInput, by the decoder and by the scanner without
    back-reference support: after a first byte from [0xC0] to [0xFE], which
    announces [k] length bytes, fewer than [k] bytes follow
    ([test_deserialize_truncated_size]: [0xFE] and four bytes). *)
Theorem truncated_length_prefix_is_rejected (max_atom_size : Z) (b0 : byte) (hi k : Z)
  (payload : bytes) :
  0xC0 ≤ Serialize.byte_to_Z b0 →
  Serialize.length_field (Serialize.byte_to_Z b0) = Some (hi, k) →
  Z.of_nat (length payload) < k →
  Serialize.sexp_from_stream max_atom_size false (b0 :: payload)
    = Some (Err Serialize.UnexpectedEndOfInput)
  ∧ Serialize.sexp_buffer_from_stream max_atom_size false (b0 :: payload)
    = Some (Err Serialize.UnexpectedEndOfInput).
Proof.
  intros Hb Hfield Hlen.
  destruct (atom_from_stream_truncated_prefix max_atom_size b0 hi k payload Hb Hfield Hlen)
    as [Hff Hatom].
  split.
  - unfold Serialize.sexp_from_stream. cbn [Serialize.decode_loop Serialize.read_token andb].
    destruct (Z.eqb_spec (Serialize.byte_to_Z b0) 255); [contradiction |].
    rewrite Hatom. reflexivity.
  - unfold Serialize.sexp_buffer_from_stream. cbn [Serialize.scan_loop andb].
    destruct (Z.eqb_spec (Serialize.byte_to_Z b0) 255); [contradiction |].
    rewrite Hatom. reflexivity.
Qed.

Lemma truncated_length_prefix_is_rejected_witness :
  Serialize.sexp_from_stream Serialize.reference_max_atom_size false
    [xfe; x20; x20; x20; x20]%byte = Some (Err Serialize.UnexpectedEndOfInput)
  ∧ Serialize.sexp_buffer_from_stream Serialize.reference_max_atom_size false
      [xfe; x20; x20; x20; x20]%byte = Some (Err Serialize.UnexpectedEndOfInput).
Proof.
  apply (truncated_length_prefix_is_rejected Serialize.reference_max_atom_size
           xfe%byte 0 6 [x20; x20; x20; x20]%byte).
  - vm_compute. discriminate.
  - reflexivity.
  - vm_compute. reflexivity.
Defined.

(** X16: successive messages in one stream are framed by the scanner and
    read by the decoder one after the other: on the encoding of a value
    followed by the encoding of a second value and any trailing bytes, the
    scanner returns the first encoding, the decoder returns the first value
    and leaves the stream at the second encoding, from which it returns the
    second value and leaves the trailing bytes. *)
Theorem successive_messages_are_framed (max_atom_size : Z) (v1 v2 : Serialize.Value)
  (b1 b2 trailing : bytes) :
  Serialize.sexp_to_bytes max_atom_size v1 = Ok b1 →
  Serialize.sexp_to_bytes max_atom_size v2 = Ok b2 →
  Serialize.sexp_buffer_from_stream max_atom_size false (b1 ++ b2 ++ trailing) = Some (Ok b1)
  ∧ Serialize.sexp_from_stream max_atom_size false (b1 ++ b2 ++ trailing)
    = Some (Ok (v1, b2 ++ trailing))
  ∧ Serialize.sexp_from_stream max_atom_size false (b2 ++ trailing) = Some (Ok (v2, trailing))
  ∧ Serialize.sexp_buffer_from_stream max_atom_size false (b2 ++ trailing) = Some (Ok b2).
Proof.
  intros H1 H2.
  destruct (scanner_returns_encoding max_atom_size v1 b1 (b2 ++ trailing) H1) as [Hd1 Hs1].
  destruct (scanner_returns_encoding max_atom_size v2 b2 trailing H2) as [Hd2 Hs2].
  auto.
Qed.

Lemma successive_messages_are_framed_witness :
  Serialize.sexp_buffer_from_stream Serialize.reference_max_atom_size false
    ([xff; x80; x01]%byte ++ [x82; x61; x62]%byte ++ [x00]%byte)
  = Some (Ok [xff; x80; x01]%byte).
Proof.
  apply (successive_messages_are_framed Serialize.reference_max_atom_size
           (Serialize.Pair (Serialize.Atom []) (Serialize.Atom [x01%byte]))
           (Serialize.Atom [x61; x62]%byte)).
  - vm_compute. reflexivity.
  - vm_compute. reflexivity.
Defined.

(** X17: the uncompressed encoding is unambiguous: two encodings of which
    one begins the other, each followed by any bytes, are encodings of the
    same value and are the same bytes. No value's encoding is a proper prefix
    of another's, and no two values share an encoding. *)
Theorem encoding_is_prefix_free (max_atom_size : Z) (v1 v2 : Serialize.Value)
  (b1 b2 t1 t2 : bytes) :
  Serialize.sexp_to_bytes max_atom_size v1 = Ok b1 →
  Serialize.sexp_to_bytes max_atom_size v2 = Ok b2 →
  b1 ++ t1 = b2 ++ t2 →
  v1 = v2 ∧ b1 = b2 ∧ t1 = t2.
Proof.
  intros H1 H2 Heq.
  destruct (scanner_returns_encoding max_atom_size v1 b1 t1 H1) as [Hd1 Hs1].
  destruct (scanner_returns_encoding max_atom_size v2 b2 t2 H2) as [Hd2 Hs2].
  rewrite Heq in Hd1, Hs1. rewrite Hd1 in Hd2. rewrite Hs1 in Hs2.
  injection Hd2 as -> ->. injection Hs2 as ->. auto.
Qed.

Lemma encoding_is_prefix_free_witness :
  Serialize.Atom [x61; x62]%byte = Serialize.Atom [x61; x62]%byte
  ∧ [x82; x61; x62]%byte = [x82; x61; x62]%byte
  ∧ [x00]%byte = [x00]%byte.
Proof.
  apply (encoding_is_prefix_free Serialize.reference_max_atom_size
           (Serialize.Atom [x61; x62]%byte) (Serialize.Atom [x61; x62]%byte)
           [x82; x61; x62]%byte [x82; x61; x62]%byte [x00]%byte [x00]%byte).
  - vm_compute. reflexivity.
  - vm_compute. reflexivity.
  - reflexivity.
Defined.
